(** * demux-js: the action reader and the action handler

    A shallow embedding of [AbstractActionReader] (dist/AbstractActionReader.js)
    and [AbstractActionHandler] (src/AbstractActionHandler.ts).

    Both classes are stateful and call abstract, asynchronous methods of the
    implementing subclass.  They are embedded in a state-and-exception monad:
    the state holds the fields of [this], the world the abstract methods act
    on, and a trace of the calls made to those methods.  A JavaScript [throw]
    (or a rejected promise that is awaited) ends the computation with the
    state as it was at that point, exactly as the fields of [this] keep the
    assignments made before the throw.  The single driver of the classes
    awaits every call, so the interleaving is sequential; [console] output is
    not modelled. *)

From stdpp Require Import prelude strings gmap.

Open Scope string_scope.
Open Scope list_scope.
Open Scope Z_scope.

(** ** Completions and the state monad *)

(** What a JavaScript computation can throw. *)
Inductive Exn : Type :=
| JsError (message : string)      (* [throw Error(message)] *)
| JsTypeError                     (* a [TypeError]: a property of [undefined] read or
                                     iterated, or a call of what is no function *)
| Rejected (reason : string)      (* a promise of an abstract method rejected *)
| OutOfFuel.                      (* artefact of the embedding of [while] *)

Inductive completion (A : Type) : Type :=
| Normal (a : A)
| Throw (e : Exn).
Arguments Normal {A} a.
Arguments Throw {A} e.

Definition M (S A : Type) : Type := S -> completion A * S.

Definition ret {S A} (a : A) : M S A := fun s => (Normal a, s).
Definition throw {S A} (e : Exn) : M S A := fun s => (Throw e, s).
Definition bind {S A B} (c : M S A) (k : A -> M S B) : M S B :=
  fun s => match c s with
           | (Normal a, s') => k a s'
           | (Throw e, s') => (Throw e, s')
           end.
Definition modify {S} (f : S -> S) : M S unit := fun s => (Normal tt, f s).
Definition when {S} (b : bool) (c : M S unit) : M S unit :=
  if b then c else ret tt.

Declare Scope js_scope.
Delimit Scope js_scope with js.
Notation "x <- c ;; k" := (bind c (fun x => k))
  (at level 100, c at next level, right associativity) : js_scope.
Notation "c ;; k" := (bind c (fun _ => k))
  (at level 100, right associativity) : js_scope.
Open Scope js_scope.

(** The state a computation ends in, whatever its completion. *)
Definition final {S A} (c : M S A) (s : S) : S := snd (c s).

(** [c] keeps the property [P] of the state, whether it returns or throws. *)
Definition preserves {S A} (P : S -> Prop) (c : M S A) : Prop :=
  forall s, P s -> P (snd (c s)).

(** ** Blocks (interfaces.ts: [BlockInfo], [Action], [Block]) *)

Record BlockInfo : Type := mkBlockInfo {
  blockNumber : Z;
  blockHash : string;
  previousBlockHash : string
}.

Record Action (Payload : Type) : Type := mkAction {
  type : string;
  payload : Payload
}.
Arguments mkAction {Payload} type payload.
Arguments type {Payload} a.
Arguments payload {Payload} a.

Record Block (Payload : Type) : Type := mkBlock {
  blockInfo : BlockInfo;
  actions : list (Action Payload)
}.
Arguments mkBlock {Payload} blockInfo actions.
Arguments blockInfo {Payload} b.
Arguments actions {Payload} b.

(** A JavaScript string is truthy when it is not empty. *)
Definition truthy (s : string) : bool :=
  match s with EmptyString => false | _ => true end.

(** [Array.prototype.pop]: the last element, if any, and the rest. *)
Definition pop {A} (l : list A) : option A * list A :=
  (last l, removelast l).

(** The integers [lo, lo+1, ..., lo+n-1]. *)
Fixpoint countFrom (lo : Z) (n : nat) : list Z :=
  match n with
  | O => []
  | S n' => lo :: countFrom (lo + 1) n'
  end.


(** ** The reader *)

Module Reader.

Section WithChain.

Context {Payload : Type}.
(** The chain the implementing class reads from. *)
Context {Chain : Type}.

(** The two abstract methods of the class.  They are asynchronous: they may
    reject, and the chain may have changed (new head, a fork) at each call. *)
Record ChainSource : Type := mkChainSource {
  getHeadBlockNumber_impl : Chain -> completion Z * Chain;
  getBlock_impl : Z -> Chain -> completion (Block Payload) * Chain
}.

Context (source : ChainSource).

(** The fields of the class. *)
Record Reader : Type := mkReader {
  startAtBlock : Z;
  onlyIrreversible : bool;
  maxHistoryLength : Z;
  headBlockNumber : Z;
  isFirstBlock : bool;
  currentBlockData : option (Block Payload);
  blockHistory : list (Block Payload);           (* oldest first *)
  tmpBlocks : list (Block Payload);
  index : nat;
  currentBlockNumber : Z
}.

Definition set_startAtBlock (v : Z) (r : Reader) : Reader :=
  mkReader v (onlyIrreversible r) (maxHistoryLength r) (headBlockNumber r)
    (isFirstBlock r) (currentBlockData r) (blockHistory r) (tmpBlocks r)
    (index r) (currentBlockNumber r).
Definition set_headBlockNumber (v : Z) (r : Reader) : Reader :=
  mkReader (startAtBlock r) (onlyIrreversible r) (maxHistoryLength r) v
    (isFirstBlock r) (currentBlockData r) (blockHistory r) (tmpBlocks r)
    (index r) (currentBlockNumber r).
Definition set_isFirstBlock (v : bool) (r : Reader) : Reader :=
  mkReader (startAtBlock r) (onlyIrreversible r) (maxHistoryLength r)
    (headBlockNumber r) v (currentBlockData r) (blockHistory r) (tmpBlocks r)
    (index r) (currentBlockNumber r).
Definition set_currentBlockData (v : option (Block Payload)) (r : Reader) : Reader :=
  mkReader (startAtBlock r) (onlyIrreversible r) (maxHistoryLength r)
    (headBlockNumber r) (isFirstBlock r) v (blockHistory r) (tmpBlocks r)
    (index r) (currentBlockNumber r).
Definition set_blockHistory (v : list (Block Payload)) (r : Reader) : Reader :=
  mkReader (startAtBlock r) (onlyIrreversible r) (maxHistoryLength r)
    (headBlockNumber r) (isFirstBlock r) (currentBlockData r) v (tmpBlocks r)
    (index r) (currentBlockNumber r).
Definition set_tmpBlocks (v : list (Block Payload)) (r : Reader) : Reader :=
  mkReader (startAtBlock r) (onlyIrreversible r) (maxHistoryLength r)
    (headBlockNumber r) (isFirstBlock r) (currentBlockData r) (blockHistory r) v
    (index r) (currentBlockNumber r).
Definition set_index (v : nat) (r : Reader) : Reader :=
  mkReader (startAtBlock r) (onlyIrreversible r) (maxHistoryLength r)
    (headBlockNumber r) (isFirstBlock r) (currentBlockData r) (blockHistory r)
    (tmpBlocks r) v (currentBlockNumber r).
Definition set_currentBlockNumber (v : Z) (r : Reader) : Reader :=
  mkReader (startAtBlock r) (onlyIrreversible r) (maxHistoryLength r)
    (headBlockNumber r) (isFirstBlock r) (currentBlockData r) (blockHistory r)
    (tmpBlocks r) (index r) v.

(** [constructor(startAtBlock = 1, onlyIrreversible = false,
    maxHistoryLength = 600)]. *)
Definition constructor (startAtBlock : Z) (onlyIrreversible : bool)
    (maxHistoryLength : Z) : Reader :=
  {| startAtBlock := startAtBlock;
     onlyIrreversible := onlyIrreversible;
     maxHistoryLength := maxHistoryLength;
     headBlockNumber := 0;
     isFirstBlock := true;
     currentBlockData := None;
     blockHistory := [];
     tmpBlocks := [];
     index := 0%nat;
     currentBlockNumber := startAtBlock - 1 |}.

Definition constructor_default : Reader := constructor 1 false 600.

(** The calls made to the abstract methods, in the order they are issued. *)
Inductive Call : Type :=
| CallGetHeadBlockNumber
| CallGetBlock (blockNumber : Z).

Record St : Type := mkSt {
  this : Reader;
  chain : Chain;
  calls : list Call
}.

Definition update (f : Reader -> Reader) : M St unit :=
  modify (fun s => mkSt (f (this s)) (chain s) (calls s)).
Definition self : M St Reader := fun s => (Normal (this s), s).

Definition getHeadBlockNumber : M St Z :=
  fun s => let (r, c) := getHeadBlockNumber_impl source (chain s) in
           (r, mkSt (this s) c (calls s ++ [CallGetHeadBlockNumber])).

Definition getBlock (n : Z) : M St (Block Payload) :=
  fun s => let (r, c) := getBlock_impl source n (chain s) in
           (r, mkSt (this s) c (calls s ++ [CallGetBlock n])).

(** [task.push(this.getBlock(i))] for each [i], then [Promise.all(task)]:
    every call is issued, in the order of the loop, before any result is
    awaited; the results come back in the order of the tasks, and the whole
    rejects when one of them does. *)
Fixpoint issueAll (ns : list Z) : M St (list (completion (Block Payload))) :=
  match ns with
  | [] => ret []
  | n :: ns' =>
      fun s => let (r, s1) := getBlock n s in
               let (rs, s2) := issueAll ns' s1 in
               match rs with
               | Normal l => (Normal (r :: l), s2)
               | Throw e => (Throw e, s2)
               end
  end.

Fixpoint awaitAll (rs : list (completion (Block Payload)))
    : completion (list (Block Payload)) :=
  match rs with
  | [] => Normal []
  | Throw e :: _ => Throw e
  | Normal b :: rs' =>
      match awaitAll rs' with
      | Normal bs => Normal (b :: bs)
      | Throw e => Throw e
      end
  end.

Definition promiseAll (ns : list Z) : M St (list (Block Payload)) :=
  rs <- issueAll ns ;;
  fun s => (awaitAll rs, s).

(** [historyExhausted()], as the class defines it. *)
Definition historyExhausted : M St unit :=
  throw (JsError "Fork resolution history has been exhausted, and no history exhaustion handling has been implemented.").

(** One turn of the [while (this.blockHistory.length > 0)] loop of
    [resolveFork]; [again] is the rest of the loop. *)
Definition resolveForkTurn (again : M St unit) : M St unit :=
  r <- self ;;
  match last (blockHistory r) with
  | None => ret tt                                   (* length === 0 *)
  | Some previousBlockData =>
      match currentBlockData r with
      | None => throw JsTypeError
      | Some cur =>
          b <- getBlock (blockNumber (blockInfo cur)) ;;
          update (set_currentBlockData (Some b)) ;;
          r1 <- self ;;
          let continue :=
            update (set_currentBlockData (Some previousBlockData)) ;;
            update (fun r => set_blockHistory (snd (pop (blockHistory r))) r) ;;
            again in
          match currentBlockData r1 with
          | Some c =>
              if String.eqb (previousBlockHash (blockInfo c))
                            (blockHash (blockInfo previousBlockData))
              then ret tt                            (* break *)
              else continue
          | None => continue
          end
      end
  end.

Fixpoint resolveForkLoop (fuel : nat) : M St unit :=
  match fuel with
  | O => throw OutOfFuel
  | S fuel' => resolveForkTurn (resolveForkLoop fuel')
  end.

Definition resolveFork : M St unit :=
  r <- self ;;
  match currentBlockData r with
  | None => throw (JsError "`currentBlockData` must not be null when initiating fork resolution.")
  | Some _ =>
      resolveForkLoop (S (length (blockHistory r))) ;;
      r1 <- self ;;
      when (length (blockHistory r1) =? 0)%nat historyExhausted ;;
      r2 <- self ;;
      match last (blockHistory r2) with
      | None => throw JsTypeError
      | Some b => update (set_currentBlockNumber (blockNumber (blockInfo b) + 1))
      end
  end.

(** *** [nextBlock], step by step *)

(** "If we're on the head block, refresh current head block". *)
Definition refreshHead : M St unit :=
  r <- self ;;
  when ((currentBlockNumber r =? headBlockNumber r) || (headBlockNumber r =? 0))
    (h <- getHeadBlockNumber ;;
     update (set_headBlockNumber h) ;;
     update (set_tmpBlocks []) ;;
     update (set_index 0%nat)).

(** "If currentBlockNumber is negative, it means we wrap to the end of the
    chain". *)
Definition resolveTail (r : Reader) : Reader :=
  if (currentBlockNumber r <? 0) && (length (blockHistory r) =? 0)%nat then
    let r1 := set_currentBlockNumber (headBlockNumber r + currentBlockNumber r) r in
    set_startAtBlock (currentBlockNumber r1 + 1) r1
  else r.

(** The refill of the prefetch buffer:
    [for (let i = (this.currentBlockNumber = 0); i < this.headBlockNumber; i++)]. *)
Definition prefetch : M St unit :=
  update (set_currentBlockNumber 0) ;;
  r <- self ;;
  result <- promiseAll (countFrom 0 (Z.to_nat (headBlockNumber r))) ;;
  update (set_tmpBlocks result).

(** [this.blockHistory.splice(0, this.blockHistory.length - this.maxHistoryLength)]:
    a negative count deletes nothing, a count beyond the length everything. *)
Definition trimHistory (r : Reader) : Reader :=
  set_blockHistory
    (drop (Z.to_nat (Z.of_nat (length (blockHistory r)) - maxHistoryLength r))
          (blockHistory r)) r.

(** "Continue if the new block is on the same chain as our history, or if
    we've just started". *)
Definition acceptBlock (blockData : Block Payload) (r : Reader) : Reader :=
  let r1 := match currentBlockData r with
            | Some c => set_blockHistory (blockHistory r ++ [c]) r
            | None => r
            end in
  let r2 := trimHistory r1 in
  let r3 := set_currentBlockData (Some blockData) r2 in
  set_currentBlockNumber (blockNumber (blockInfo blockData)) r3.

(** "If we're now behind one or more new blocks, process them"; returns
    [(isRollback, isNewBlock)]. *)
Definition advance : M St (bool * bool) :=
  r <- self ;;
  if currentBlockNumber r <? headBlockNumber r then
    when (length (tmpBlocks r) =? 0)%nat prefetch ;;
    r1 <- self ;;
    let unvalidatedBlockData := tmpBlocks r1 !! index r1 in
    update (set_index (S (index r1))) ;;
    let expectedHash := match currentBlockData r1 with
                        | Some c => blockHash (blockInfo c)
                        | None => "INVALID"
                        end in
    match unvalidatedBlockData with
    | None => throw JsTypeError
    | Some u =>
        let actualHash := previousBlockHash (blockInfo u) in
        if String.eqb expectedHash actualHash
           || (length (blockHistory r1) =? 0)%nat
        then
          update (acceptBlock u) ;;
          ret (false, true)
        else
          resolveFork ;;
          h <- getHeadBlockNumber ;;
          update (set_headBlockNumber h) ;;
          ret (true, true)
    end
  else ret (false, false).

Definition nextBlock : M St (Block Payload * bool * bool) :=
  refreshHead ;;
  update resolveTail ;;
  flags <- advance ;;
  update (fun r => set_isFirstBlock (currentBlockNumber r =? startAtBlock r) r) ;;
  r <- self ;;
  match currentBlockData r with
  | None => throw (JsError "currentBlockData must not be null.")
  | Some b => ret (b, fst flags, snd flags)
  end.

(** *** [seekToBlock] *)

(** The scan "Check if block exists in history": from the newest entry down,
    [toDelete] counts the entries passed before the first match. *)
Fixpoint scanHistory (blockNumber' : Z) (newestFirst : list (Block Payload))
    (toDelete : Z) : Z :=
  match newestFirst with
  | [] => toDelete
  | b :: older =>
      if blockNumber (blockInfo b) =? blockNumber' then toDelete
      else scanHistory blockNumber' older (toDelete + 1)
  end.

Definition seekToBlock (blockNumber' : Z) : M St unit :=
  update (set_currentBlockData None) ;;
  update (set_headBlockNumber 0) ;;
  r <- self ;;
  if blockNumber' <? startAtBlock r then
    throw (JsError "Cannot seek to block before configured startAtBlock.")
  else if blockNumber' =? 1 then
    update (set_blockHistory []) ;;
    update (set_currentBlockNumber 0)
  else
    let toDelete := scanHistory blockNumber' (rev (blockHistory r)) (-1) in
    when (0 <=? toDelete)
      (update (fun r => set_blockHistory (take (Z.to_nat toDelete) (blockHistory r)) r) ;;
       update (fun r => set_currentBlockData (fst (pop (blockHistory r)))
                          (set_blockHistory (snd (pop (blockHistory r))) r))) ;;
    update (set_currentBlockNumber (blockNumber' - 1)) ;;
    r1 <- self ;;
    match currentBlockData r1 with
    | Some _ => ret tt
    | None =>
        b <- getBlock (currentBlockNumber r1) ;;
        update (set_currentBlockData (Some b))
    end.

(** *** Predicates on the reader *)

(** A property of the fields of the reader, as a property of the state. *)
Definition onThis (Q : Reader -> Prop) (s : St) : Prop := Q (this s).

(** The history is no longer than [maxHistoryLength]. *)
Definition historyBounded (r : Reader) : Prop :=
  Z.of_nat (length (blockHistory r)) <= maxHistoryLength r.

(** The history is no longer than [n], under the bound [m] of the reader. *)
Definition historyWithin (n : nat) (m : Z) (r : Reader) : Prop :=
  maxHistoryLength r = m /\ (length (blockHistory r) <= n)%nat.

End WithChain.

Arguments ChainSource : clear implicits.
Arguments Reader : clear implicits.
Arguments St : clear implicits.

End Reader.

(** ** The handler *)

Module Handler.

(** interfaces.ts: [IndexState]. *)
Record IndexState : Type := mkIndexState {
  indexBlockNumber : Z;
  indexBlockHash : string;
  indexHandlerVersionName : string
}.

(** The calls the handler makes to its abstract methods and to the updaters
    and effects of its handler versions, in order. *)
Inductive Event : Type :=
| EvRollbackTo (blockNumber : Z)
| EvLoadIndexState
| EvUpdateIndexState (blockNumber : Z) (isReplay : bool) (handlerVersionName : string)
| EvHandleWithState
| EvApply (handlerVersionName : string) (updaterIndex : Z) (actionType : string)
| EvRun (handlerVersionName : string) (effectIndex : Z) (actionType : string).


(** The calls of the first statement of [handleBlock]. *)
Definition beforeChecks (e : Event) : Prop :=
  match e with
  | EvRollbackTo _ | EvLoadIndexState => True
  | _ => False
  end.

(** Any call but [rollbackTo]. *)
Definition notRollback (e : Event) : Prop :=
  match e with
  | EvRollbackTo _ => False
  | _ => True
  end.

Section WithBinder.

Context {Payload : Type}.
(** The [state] and [context] objects are references into the world of the
    implementing class: updaters, effects and the abstract methods all mutate
    that one world through them. *)
Context {StateRef CtxRef World : Type}.

(** interfaces.ts: [Updater], [Effect], [HandlerVersion].  [apply] resolves
    to a version name or to nothing ([None]); [run] is not awaited, so only a
    synchronous throw of it reaches the handler. *)
Record Updater : Type := mkUpdater {
  updaterActionType : string;
  apply : StateRef -> Payload -> BlockInfo -> CtxRef -> World ->
          completion (option string) * World
}.

Record Effect : Type := mkEffect {
  effectActionType : string;
  run : Payload -> Block Payload -> CtxRef -> World -> completion unit * World
}.

Record HandlerVersion : Type := mkHandlerVersion {
  versionName : string;
  updaters : list Updater;
  effects : list Effect
}.

(** The abstract methods of the class.  [handleWithState] "must call the
    passed-in [handle] function within this method, passing in a state
    object" and optionally a context: it is given by what the implementation
    does before the call (producing the state and the optional context) and
    after it (seeing how [handle] completed). *)
Record Binder : Type := mkBinder {
  updateIndexState_impl :
    StateRef -> Block Payload -> bool -> string -> CtxRef -> World ->
    completion unit * World;
  loadIndexState_impl : World -> completion IndexState * World;
  rollbackTo_impl : Z -> World -> completion unit * World;
  handleWithState_enter : World -> completion (StateRef * option CtxRef) * World;
  handleWithState_leave : completion unit -> World -> completion unit * World;
  (** the object [{}] that [handle] takes as default context *)
  emptyContext : CtxRef
}.

Context (binder : Binder).

(** The fields of the class.  [handlerVersionMap] is a plain object, [{}]:
    its own properties are the finite map, and [handlerVersionMapProto] is
    the handler version that an assignment to the key ["__proto__"] has made
    its prototype ([None]: the prototype is still [Object.prototype]).
    Handler versions are taken to be plain objects with the three properties
    of the interface. *)
Record Handler : Type := mkHandler {
  lastProcessedBlockNumber : Z;
  lastProcessedBlockHash : string;
  handlerVersionName : string;
  handlerVersionMap : gmap string HandlerVersion;
  handlerVersionMapProto : option HandlerVersion
}.

Definition set_lastProcessedBlockNumber (v : Z) (h : Handler) : Handler :=
  mkHandler v (lastProcessedBlockHash h) (handlerVersionName h) (handlerVersionMap h)
    (handlerVersionMapProto h).
Definition set_lastProcessedBlockHash (v : string) (h : Handler) : Handler :=
  mkHandler (lastProcessedBlockNumber h) v (handlerVersionName h) (handlerVersionMap h)
    (handlerVersionMapProto h).
Definition set_handlerVersionName (v : string) (h : Handler) : Handler :=
  mkHandler (lastProcessedBlockNumber h) (lastProcessedBlockHash h) v (handlerVersionMap h)
    (handlerVersionMapProto h).
Definition set_handlerVersionMap (v : gmap string HandlerVersion) (h : Handler) : Handler :=
  mkHandler (lastProcessedBlockNumber h) (lastProcessedBlockHash h) (handlerVersionName h) v
    (handlerVersionMapProto h).
Definition set_handlerVersionMapProto (v : option HandlerVersion) (h : Handler) : Handler :=
  mkHandler (lastProcessedBlockNumber h) (lastProcessedBlockHash h) (handlerVersionName h)
    (handlerVersionMap h) v.

(** [Object.prototype.hasOwnProperty] on the version map: [name] is one of
    its own properties.  This is the method the call
    [this.handlerVersionMap.hasOwnProperty(name)] reaches as long as no version
    is registered under the name ["hasOwnProperty"]; the constructor returns
    no handler that has one (it throws, see [callHasOwnProperty] and
    [initHandlerVersions]), and the map is not written afterwards. *)
Definition hasOwnProperty (name : string) (m : gmap string HandlerVersion) : bool :=
  bool_decide (is_Some (m !! name)).

(** [this.handlerVersionMap.hasOwnProperty(name)] while the map is being
    filled: the method is looked up on the map first, so a version registered
    under the name ["hasOwnProperty"] shadows it, and calling a handler
    version is a [TypeError]. *)
Definition callHasOwnProperty (name : string) (m : gmap string HandlerVersion)
    : completion bool :=
  match m !! "hasOwnProperty" with
  | Some _ => Throw JsTypeError
  | None => Normal (hasOwnProperty name m)
  end.

(** [this.handlerVersionMap[name] = handlerVersion].  The key ["__proto__"],
    unless it is an own property already, goes to the setter of
    [Object.prototype]: the version becomes the prototype of the map and no
    own property is created. *)
Definition assignVersion (name : string) (handlerVersion : HandlerVersion)
    (h : Handler) : Handler :=
  if String.eqb name "__proto__" && negb (hasOwnProperty name (handlerVersionMap h))
  then set_handlerVersionMapProto (Some handlerVersion) h
  else set_handlerVersionMap (<[name := handlerVersion]> (handlerVersionMap h)) h.

(** [this.handlerVersionMap[name]], as far as it is a handler version: an own
    property, or for ["__proto__"] the version that was made the prototype.
    Any other name gives [undefined] or an inherited value that has neither
    [updaters] nor [effects] ([None]). *)
Definition getVersion (name : string) (h : Handler) : option HandlerVersion :=
  match handlerVersionMap h !! name with
  | Some hv => Some hv
  | None => if String.eqb name "__proto__" then handlerVersionMapProto h else None
  end.

(** *** The constructor *)

(** The text of the error for a name that is registered already. *)
Definition alreadyExists (name : string) : string :=
  String.append "Handler version name '"
    (String.append name
       (String.append "' already exists. " "Handler versions must have unique names.")).

(** The [for (const handlerVersion of handlerVersions)] loop of
    [initHandlerVersions]. *)
Fixpoint registerVersions (handlerVersions : list HandlerVersion)
    (h : Handler) : completion Handler :=
  match handlerVersions with
  | [] => Normal h
  | handlerVersion :: rest =>
      match callHasOwnProperty (versionName handlerVersion) (handlerVersionMap h) with
      | Throw e => Throw e
      | Normal true => Throw (JsError (alreadyExists (versionName handlerVersion)))
      | Normal false =>
          registerVersions rest (assignVersion (versionName handlerVersion) handlerVersion h)
      end
  end.

Definition initHandlerVersions (handlerVersions : list HandlerVersion)
    (h : Handler) : completion Handler :=
  match handlerVersions with
  | [] => Throw (JsError "Must have at least one handler version.")
  | first :: _ =>
      match registerVersions handlerVersions h with
      | Throw e => Throw e
      | Normal h1 =>
          match callHasOwnProperty (handlerVersionName h1) (handlerVersionMap h1) with
          | Throw e => Throw e
          | Normal false => Normal (set_handlerVersionName (versionName first) h1)
          | Normal true => Normal h1 (* at most a warning *)
          end
      end
  end.

(** The field initialisers of the class. *)
Definition initialFields : Handler :=
  {| lastProcessedBlockNumber := 0;
     lastProcessedBlockHash := "";
     handlerVersionName := "v1";
     handlerVersionMap := ∅;
     handlerVersionMapProto := None |}.

Definition constructor (handlerVersions : list HandlerVersion) : completion Handler :=
  initHandlerVersions handlerVersions initialFields.

(** The names under which the versions of a list become own properties of
    the map: all but ["__proto__"]. *)
Definition ownNames (handlerVersions : list HandlerVersion) : list string :=
  List.filter (fun name => negb (String.eqb name "__proto__"))
    (map versionName handlerVersions).

(** The version that the key ["__proto__"] reads after the versions of a
    list have been assigned in order: the last one of that name. *)
Definition lastProto (handlerVersions : list HandlerVersion) : option HandlerVersion :=
  last (List.filter (fun hv => String.eqb (versionName hv) "__proto__") handlerVersions).

(** *** The monad of the methods *)

Record St : Type := mkSt {
  this : Handler;
  world : World;
  trace : list Event
}.

Definition update (f : Handler -> Handler) : M St unit :=
  modify (fun s => mkSt (f (this s)) (world s) (trace s)).
Definition self : M St Handler := fun s => (Normal (this s), s).

(** A call into the world of the implementation, recorded in the trace. *)
Definition call {A} (e : Event) (f : World -> completion A * World) : M St A :=
  fun s => let (r, w) := f (world s) in (r, mkSt (this s) w (trace s ++ [e])).
(** The part of an already recorded call that runs later. *)
Definition resume {A} (f : World -> completion A * World) : M St A :=
  fun s => let (r, w) := f (world s) in (r, mkSt (this s) w (trace s)).

Definition updateIndexState (state : StateRef) (block : Block Payload)
    (isReplay : bool) (handlerVersionName : string) (context : CtxRef) : M St unit :=
  call (EvUpdateIndexState (blockNumber (blockInfo block)) isReplay handlerVersionName)
       (updateIndexState_impl binder state block isReplay handlerVersionName context).

Definition loadIndexState : M St IndexState :=
  call EvLoadIndexState (loadIndexState_impl binder).

Definition rollbackTo (blockNumber : Z) : M St unit :=
  call (EvRollbackTo blockNumber) (rollbackTo_impl binder blockNumber).

Definition handleWithState (handle : StateRef -> option CtxRef -> M St unit) : M St unit :=
  args <- call EvHandleWithState (handleWithState_enter binder) ;;
  fun s => let (r, s1) := handle (fst args) (snd args) s in
           resume (handleWithState_leave binder r) s1.

(** *** [applyUpdaters] *)

(** The inner loop, [for (const updater of ...updaters)], for one action.
    [versionName] is the version whose updaters are walked and [updaterIndex]
    the counter of the source; the result tells whether the loop was left by
    [break]. *)
Fixpoint updaterLoop (state : StateRef) (block : Block Payload) (isReplay : bool)
    (context : CtxRef) (action : Action Payload) (versionName : string)
    (us : list Updater) (updaterIndex : Z) : M St bool :=
  match us with
  | [] => ret false
  | updater :: rest =>
      let updaterIndex := updaterIndex + 1 in
      if String.eqb (type action) (updaterActionType updater) then
        newVersion <- call (EvApply versionName updaterIndex (type action))
                        (apply updater state (payload action) (blockInfo block) context) ;;
        h <- self ;;
        match newVersion with
        | Some v =>
            if truthy v && negb (hasOwnProperty v (handlerVersionMap h)) then
              updaterLoop state block isReplay context action versionName rest updaterIndex
            else if truthy v then
              updateIndexState state block isReplay v context ;;
              update (set_handlerVersionName v) ;;
              ret true
            else
              updaterLoop state block isReplay context action versionName rest updaterIndex
        | None =>
            updaterLoop state block isReplay context action versionName rest updaterIndex
        end
      else
        updaterLoop state block isReplay context action versionName rest updaterIndex
  end.

(** The body of the outer loop: the updaters of the version active when the
    action is reached. *)
Definition applyToAction (state : StateRef) (block : Block Payload) (isReplay : bool)
    (context : CtxRef) (action : Action Payload) : M St bool :=
  h <- self ;;
  match getVersion (handlerVersionName h) h with
  | None => throw JsTypeError
  | Some hv =>
      updaterLoop state block isReplay context action (handlerVersionName h)
        (updaters hv) (-1)
  end.

Fixpoint actionLoop (state : StateRef) (block : Block Payload) (isReplay : bool)
    (context : CtxRef) (todo : list (Action Payload))
    (versionedActions : list (Action Payload * string))
    : M St (list (Action Payload * string)) :=
  match todo with
  | [] => ret versionedActions
  | action :: rest =>
      applyToAction state block isReplay context action ;;
      h <- self ;;
      actionLoop state block isReplay context rest
        (versionedActions ++ [(action, handlerVersionName h)])
  end.

Definition applyUpdaters (state : StateRef) (block : Block Payload) (isReplay : bool)
    (context : CtxRef) : M St (list (Action Payload * string)) :=
  actionLoop state block isReplay context (actions block) [].

(** *** [runEffects] *)

Fixpoint effectLoop (block : Block Payload) (context : CtxRef)
    (action : Action Payload) (versionName : string) (es : list Effect)
    (effectIndex : Z) : M St unit :=
  match es with
  | [] => ret tt
  | effect :: rest =>
      when (String.eqb (type action) (effectActionType effect))
        (call (EvRun versionName effectIndex (type action))
           (run effect (payload action) block context)) ;;
      effectLoop block context action versionName rest (effectIndex + 1)
  end.

Fixpoint runEffects (versionedActions : list (Action Payload * string))
    (block : Block Payload) (context : CtxRef) : M St unit :=
  match versionedActions with
  | [] => ret tt
  | (action, handlerVersionName) :: rest =>
      h <- self ;;
      match getVersion handlerVersionName h with
      | None => throw JsTypeError
      | Some hv =>
          effectLoop block context action handlerVersionName (effects hv) 0 ;;
          runEffects rest block context
      end
  end.

(** *** [handleActions], [refreshIndexState] and [handleBlock] *)

Definition handleActions (state : StateRef) (block : Block Payload)
    (context : CtxRef) (isReplay : bool) : M St unit :=
  versionedActions <- applyUpdaters state block isReplay context ;;
  when (negb isReplay) (runEffects versionedActions block context) ;;
  h <- self ;;
  updateIndexState state block isReplay (handlerVersionName h) context ;;
  update (set_lastProcessedBlockNumber (blockNumber (blockInfo block))) ;;
  update (set_lastProcessedBlockHash (blockHash (blockInfo block))).

Definition refreshIndexState : M St unit :=
  loaded <- loadIndexState ;;
  update (set_lastProcessedBlockNumber (indexBlockNumber loaded)) ;;
  update (set_lastProcessedBlockHash (indexBlockHash loaded)) ;;
  update (set_handlerVersionName (indexHandlerVersionName loaded)).

(** The first statement of [handleBlock]: roll back, or load the index state
    on a cold start. *)
Definition rollbackOrColdStart (block : Block Payload)
    (isRollback isFirstBlock isReplay : bool) : M St unit :=
  h <- self ;;
  if isRollback || (isReplay && isFirstBlock) then
    let rollbackBlockNumber := blockNumber (blockInfo block) - 1 in
    rollbackTo rollbackBlockNumber ;;
    refreshIndexState
  else if (lastProcessedBlockNumber h =? 0)
          && String.eqb (lastProcessedBlockHash h) "" then
    refreshIndexState
  else ret tt.

(** The rest of [handleBlock], from [const nextBlockNeeded] on. *)
Definition checkAndApply (block : Block Payload)
    (isFirstBlock isReplay : bool) : M St (bool * Z) :=
  h <- self ;;
  let nextBlockNeeded := lastProcessedBlockNumber h + 1 in
  let handleWithArgs := fun (state : StateRef) (context : option CtxRef) =>
    handleActions state block (default (emptyContext binder) context) isReplay in
  let applyBlock := handleWithState handleWithArgs ;; ret (false, 0) in
  (* Just processed this block; skip *)
  if (blockNumber (blockInfo block) =? lastProcessedBlockNumber h)
     && String.eqb (blockHash (blockInfo block)) (lastProcessedBlockHash h) then
    ret (false, 0)
  (* If it's the first block but we've already processed blocks, seek *)
  else if isFirstBlock && truthy (lastProcessedBlockHash h) then
    ret (true, nextBlockNeeded)
  else if negb isFirstBlock then
    if negb (blockNumber (blockInfo block) =? nextBlockNeeded) then
      ret (true, nextBlockNeeded)
    else if negb (String.eqb (previousBlockHash (blockInfo block))
                             (lastProcessedBlockHash h)) then
      throw (JsError "Block hashes do not match; block not part of current chain.")
    else applyBlock
  else applyBlock.

(** [handleBlock(block, isRollback, isFirstBlock, isReplay = false)]. *)
Definition handleBlock (block : Block Payload)
    (isRollback isFirstBlock isReplay : bool) : M St (bool * Z) :=
  rollbackOrColdStart block isRollback isFirstBlock isReplay ;;
  checkAndApply block isFirstBlock isReplay.

(** *** Predicates on the handler *)

(** [c] only appends to the trace, and every event it appends satisfies [Q],
    however [c] completes. *)
Definition emits {A} (Q : Event -> Prop) (c : M St A) : Prop :=
  forall s, exists evs, trace (snd (c s)) = trace s ++ evs /\ Forall Q evs.

(** The active version name is a key of the version map. *)
Definition versionRegistered (h : Handler) : Prop :=
  is_Some (handlerVersionMap h !! handlerVersionName h).

(** The version map is [m] and the active version is one of its keys. *)
Definition registeredIn (m : gmap string HandlerVersion)
    (s : St) : Prop :=
  handlerVersionMap (this s) = m /\ is_Some (m !! handlerVersionName (this s)).

(** The index state that [loadIndexState] resolves to in the world [w], if
    it does, names a version of [m]. *)
Definition loadsRegisteredAt (m : gmap string HandlerVersion) (w : World) : Prop :=
  forall loaded w',
    loadIndexState_impl binder w = (Normal loaded, w') ->
    is_Some (m !! indexHandlerVersionName loaded).

(** The world in which the first statement of [handleBlock] calls
    [loadIndexState], if it does: with a rollback, the world [rollbackTo]
    leaves when it resolves; without one, the world of the call when the
    handler is on a cold start. *)
Definition worldAtLoad (block : Block Payload)
    (isRollback isFirstBlock isReplay : bool) (s : St) : option World :=
  if isRollback || (isReplay && isFirstBlock) then
    match rollbackTo_impl binder (blockNumber (blockInfo block) - 1) (world s) with
    | (Normal _, w) => Some w
    | (Throw _, _) => None
    end
  else if (lastProcessedBlockNumber (this s) =? 0)
          && String.eqb (lastProcessedBlockHash (this s)) "" then
    Some (world s)
  else None.

(** No effect of the versions of [m] throws. *)
Definition quietEffects (m : gmap string HandlerVersion) : Prop :=
  forall name hv,
    m !! name = Some hv ->
    Forall (fun effect =>
              forall p b c w, exists w', run effect p b c w = (Normal tt, w'))
           (effects hv).

(** An [updateIndexState] call names a non-empty key of [m]. *)
Definition persistsKnown (m : gmap string HandlerVersion) (e : Event) : Prop :=
  match e with
  | EvUpdateIndexState _ _ v => v <> "" /\ is_Some (m !! v)
  | _ => True
  end.

(** The version map is [m], and the calls made since [trace0] persist index
    states under known names only. *)
Definition knownSince (m : gmap string HandlerVersion) (trace0 : list Event)
    (s : St) : Prop :=
  handlerVersionMap (this s) = m /\
  exists evs, trace s = trace0 ++ evs /\ Forall (persistsKnown m) evs.

(** *** The calls owed to a block, listed

    What [applyUpdaters] and [runEffects] are to call, worded on lists: the
    handler's loops are compared with these. *)








End WithBinder.

Arguments Updater : clear implicits.
Arguments Effect : clear implicits.
Arguments HandlerVersion : clear implicits.
Arguments Binder : clear implicits.
Arguments Handler : clear implicits.
Arguments St : clear implicits.

End Handler.

(** ** Sample implementations

    A chain source and a persistence binder simple enough to run the two
    classes on concrete inputs. *)

Module Sample.

(** *** A chain held as a list of blocks *)

Definition block (n : Z) (hash previous : string) : Block unit :=
  mkBlock (mkBlockInfo n hash previous) [].

Definition numbered (n : Z) (b : Block unit) : bool :=
  blockNumber (blockInfo b) =? n.

(** The head is the number of the last block of the list; a block is looked
    up by its number, and the promise rejects when there is none. *)
Definition listSource : Reader.ChainSource unit (list (Block unit)) :=
  {| Reader.getHeadBlockNumber_impl := fun c =>
       (Normal (from_option (fun b => blockNumber (blockInfo b)) 0 (last c)), c);
     Reader.getBlock_impl := fun n c =>
       (match List.find (numbered n) c with
        | Some b => Normal b
        | None => Throw (Rejected "no such block")
        end, c) |}.

Definition b0 := block 0 "h0" "".
Definition b1 := block 1 "h1" "h0".
Definition b2 := block 2 "h2" "h1".
Definition b3 := block 3 "h3" "h2".
Definition b4 := block 4 "h4" "h3".
Definition b5 := block 5 "h5" "h4".
Definition b6 := block 6 "h6" "h5".
Definition b7 := block 7 "h7" "h6".
Definition b8 := block 8 "h8" "h7".

Definition chain8 : list (Block unit) := [b0; b1; b2; b3; b4; b5; b6; b7; b8].

Definition start (r : Reader.Reader unit) (c : list (Block unit))
    : Reader.St unit (list (Block unit)) :=
  Reader.mkSt r c [].

(** [n] calls of [nextBlock] in a row, whatever each returns. *)
Fixpoint deliver (n : nat) (s : Reader.St unit (list (Block unit)))
    : Reader.St unit (list (Block unit)) :=
  match n with
  | O => s
  | S n' => deliver n' (final (Reader.nextBlock listSource) s)
  end.

(** A reader that holds block 6 as its current block, over a given history:
    the reader that [constructor 1 false maxHistoryLength] is after seven
    calls of [nextBlock] on [chain8] (see [seven_blocks_delivered]). *)
Definition reader6 (maxHistoryLength : Z) (history : list (Block unit))
    : Reader.Reader unit :=
  {| Reader.startAtBlock := 1;
     Reader.onlyIrreversible := false;
     Reader.maxHistoryLength := maxHistoryLength;
     Reader.headBlockNumber := 8;
     Reader.isFirstBlock := false;
     Reader.currentBlockData := Some b6;
     Reader.blockHistory := history;
     Reader.tmpBlocks := [b0; b1; b2; b3; b4; b5; b6; b7];
     Reader.index := 7%nat;
     Reader.currentBlockNumber := 6 |}.

Definition calls8 : list Reader.Call :=
  Reader.CallGetHeadBlockNumber :: map Reader.CallGetBlock [0; 1; 2; 3; 4; 5; 6; 7].

Definition reached (r : Reader.Reader unit) : Reader.St unit (list (Block unit)) :=
  Reader.mkSt r chain8 calls8.

(** A chain source whose head cannot be read. *)
Definition offlineSource : Reader.ChainSource unit (list (Block unit)) :=
  {| Reader.getHeadBlockNumber_impl := fun c => (Throw (Rejected "offline"), c);
     Reader.getBlock_impl := Reader.getBlock_impl listSource |}.

(** A block 7 of another branch, which does not link to [b6], and a reader
    holding block 6 whose prefetch buffer ends with it. *)
Definition b7fork : Block unit := block 7 "g7" "g6".

Definition reader6forked : Reader.Reader unit :=
  Reader.set_tmpBlocks [b0; b1; b2; b3; b4; b5; b6; b7fork] (reader6 3 [b3; b4; b5]).

(** *** A store with a counter and a log of index states *)

(** The world of the binder: a counter the updaters change, and the index
    states written so far, newest first, each with the counter as it was
    when the index state was written (so that a rollback can restore it). *)
Record Store : Type := mkStore {
  counter : Z;
  written : list (Handler.IndexState * Z)
}.

Definition indexOf (w : Store) : Handler.IndexState :=
  from_option fst (Handler.mkIndexState 0 "" "v1") (head (written w)).

Definition keptBy (n : Z) (e : Handler.IndexState * Z) : bool :=
  Handler.indexBlockNumber (fst e) <=? n.

Definition storeBinder : Handler.Binder unit unit unit Store :=
  {| Handler.updateIndexState_impl := fun _ b _ name _ w =>
       (Normal tt,
        mkStore (counter w)
          ((Handler.mkIndexState (blockNumber (blockInfo b)) (blockHash (blockInfo b)) name,
            counter w) :: written w));
     Handler.loadIndexState_impl := fun w => (Normal (indexOf w), w);
     Handler.rollbackTo_impl := fun n w =>
       let kept := List.filter (keptBy n) (written w) in
       (Normal tt, mkStore (from_option snd 0 (head kept)) kept);
     Handler.handleWithState_enter := fun w => (Normal (tt, None), w);
     Handler.handleWithState_leave := fun r w => (r, w);
     Handler.emptyContext := tt |}.

(** An updater that adds one to the counter, and updaters that moreover
    return a version name. *)
Definition inc (actionType : string) : Handler.Updater unit unit unit Store :=
  {| Handler.updaterActionType := actionType;
     Handler.apply := fun _ _ _ _ w =>
       (Normal None, mkStore (counter w + 1) (written w)) |}.

Definition switchTo (actionType newVersion : string)
    : Handler.Updater unit unit unit Store :=
  {| Handler.updaterActionType := actionType;
     Handler.apply := fun _ _ _ _ w =>
       (Normal (Some newVersion), mkStore (counter w + 1) (written w)) |}.

(** An effect that does nothing but run. *)
Definition notify (actionType : string) : Handler.Effect unit unit Store :=
  {| Handler.effectActionType := actionType;
     Handler.run := fun _ _ _ w => (Normal tt, w) |}.

Definition v1 : Handler.HandlerVersion unit unit unit Store :=
  {| Handler.versionName := "v1";
     Handler.updaters := [inc "inc"; switchTo "upgrade" "v2"; inc "upgrade"];
     Handler.effects := [notify "inc"] |}.

Definition v2 : Handler.HandlerVersion unit unit unit Store :=
  {| Handler.versionName := "v2";
     Handler.updaters := [inc "inc"; inc "inc"];
     Handler.effects := [notify "inc"; notify "upgrade"] |}.

(** A version whose first updater answers with the empty string, and a
    version registered under the empty name. *)
Definition v1quiet : Handler.HandlerVersion unit unit unit Store :=
  {| Handler.versionName := "v1";
     Handler.updaters := [switchTo "upgrade" ""; inc "upgrade"];
     Handler.effects := [] |}.

Definition unnamed : Handler.HandlerVersion unit unit unit Store :=
  {| Handler.versionName := "";
     Handler.updaters := [];
     Handler.effects := [] |}.

(** Two versions under the name "__proto__", and a version under the name
    "hasOwnProperty". *)
Definition protoA : Handler.HandlerVersion unit unit unit Store :=
  {| Handler.versionName := "__proto__";
     Handler.updaters := [inc "inc"];
     Handler.effects := [] |}.

Definition protoB : Handler.HandlerVersion unit unit unit Store :=
  {| Handler.versionName := "__proto__";
     Handler.updaters := [inc "inc"; inc "inc"];
     Handler.effects := [notify "inc"] |}.

Definition shadow : Handler.HandlerVersion unit unit unit Store :=
  {| Handler.versionName := "hasOwnProperty";
     Handler.updaters := [];
     Handler.effects := [] |}.

Definition act (t : string) : Action unit := mkAction t tt.

Definition withActions (b : Block unit) (l : list (Action unit)) : Block unit :=
  mkBlock (blockInfo b) l.

Definition handlerOf (versions : list (Handler.HandlerVersion unit unit unit Store))
    (number : Z) (hash name : string) : Handler.Handler unit unit unit Store :=
  {| Handler.lastProcessedBlockNumber := number;
     Handler.lastProcessedBlockHash := hash;
     Handler.handlerVersionName := name;
     Handler.handlerVersionMap :=
       list_to_map (map (fun hv => (Handler.versionName hv, hv)) versions);
     Handler.handlerVersionMapProto := None |}.

Definition idx (n : Z) (hash name : string) (count : Z) : Handler.IndexState * Z :=
  (Handler.mkIndexState n hash name, count).

(** A store after blocks 1 to 5, each with one "inc" action, were applied. *)
Definition storeAt5 : Store :=
  mkStore 5 [idx 5 "h5" "v1" 5; idx 4 "h4" "v1" 4; idx 3 "h3" "v1" 3;
             idx 2 "h2" "v1" 2; idx 1 "h1" "v1" 1].

(** A store whose index state was written under a version "v2". *)
Definition storeUnderV2 : Store :=
  mkStore 5 [idx 5 "h5" "v2" 5].

Definition boot (h : Handler.Handler unit unit unit Store) (w : Store)
    : Handler.St unit unit unit Store :=
  Handler.mkSt h w [].

(** Blocks handled in a row, each carrying one "inc" action; the first one
    is handed over as the first block. *)
Fixpoint handleAll (blocks : list (Block unit)) (isFirstBlock : bool)
    (s : Handler.St unit unit unit Store) : Handler.St unit unit unit Store :=
  match blocks with
  | [] => s
  | b :: rest =>
      handleAll rest false
        (final (Handler.handleBlock storeBinder (withActions b [act "inc"])
                  false isFirstBlock false) s)
  end.

End Sample.

(** * Properties *)

(** ** Properties kept by a computation, however it completes *)
Section Preserves.

Context {State : Type} (P : State -> Prop).

Lemma preserves_ret {A} (a : A) : preserves P (ret a).
Proof. intros s H. exact H. Qed.

Lemma preserves_throw {A} (e : Exn) : preserves P (@throw State A e).
Proof. intros s H. exact H. Qed.

Lemma preserves_bind {A B} (c : M State A) (k : A -> M State B) :
  preserves P c -> (forall a, preserves P (k a)) -> preserves P (bind c k).
Proof.
  intros Hc Hk s H. unfold bind.
  specialize (Hc s H). destruct (c s) as [[a | e] s']; simpl in *.
  - apply Hk, Hc.
  - exact Hc.
Qed.

Lemma preserves_modify (f : State -> State) :
  (forall s, P s -> P (f s)) -> preserves P (modify f).
Proof. intros Hf s H. apply Hf, H. Qed.

Lemma preserves_when (b : bool) (c : M State unit) :
  preserves P c -> preserves P (when b c).
Proof. intros Hc. destruct b; [exact Hc | apply preserves_ret]. Qed.

End Preserves.

(** ** The reader *)

Module ReaderFacts.

Import Reader.

Section WithChain.

Context {Payload Chain : Type} (source : ChainSource Payload Chain).

Local Abbreviation Reader := (Reader Payload).
Local Abbreviation St := (St Payload Chain).

Lemma preserves_update (Q : Reader -> Prop) (f : Reader -> Reader) :
  (forall r, Q r -> Q (f r)) -> preserves (onThis Q) (update (Chain := Chain) f).
Proof. intros Hf s H. apply Hf, H. Qed.

Lemma preserves_self (Q : Reader -> Prop) : preserves (onThis Q) (self (Chain := Chain)).
Proof. intros s H. exact H. Qed.

Lemma preserves_getBlock (Q : Reader -> Prop) n :
  preserves (onThis Q) (getBlock source n).
Proof.
  intros s H. unfold getBlock.
  destruct (getBlock_impl source n (chain s)). exact H.
Qed.

Lemma preserves_getHeadBlockNumber (Q : Reader -> Prop) :
  preserves (onThis Q) (getHeadBlockNumber source).
Proof.
  intros s H. unfold getHeadBlockNumber.
  destruct (getHeadBlockNumber_impl source (chain s)). exact H.
Qed.

Lemma preserves_issueAll (Q : Reader -> Prop) ns :
  preserves (onThis Q) (issueAll source ns).
Proof.
  induction ns as [| n ns IH]; intros s H; simpl.
  - exact H.
  - pose proof (preserves_getBlock Q n s H) as H1.
    destruct (getBlock source n s) as [r s1]. simpl in H1.
    specialize (IH s1 H1).
    destruct (issueAll source ns s1) as [[l | e] s2]; exact IH.
Qed.

Lemma preserves_promiseAll (Q : Reader -> Prop) ns :
  preserves (onThis Q) (promiseAll source ns).
Proof.
  apply preserves_bind; [apply preserves_issueAll |].
  intros rs s H. exact H.
Qed.

(** *** The bound on the history *)

Lemma length_removelast {A} (l : list A) :
  (length (removelast l) <= length l)%nat.
Proof.
  induction l as [| a [| b l] IH]; simpl in *; lia.
Qed.

Lemma within_bounded (c : M St unit) :
  (forall n m, preserves (onThis (historyWithin n m)) c) ->
  preserves (onThis historyBounded) c.
Proof.
  intros Hc s H.
  destruct (Hc (length (blockHistory (this s))) (maxHistoryLength (this s)) s)
    as [Hm Hn].
  - split; [reflexivity | lia].
  - unfold onThis, historyBounded in *. lia.
Qed.

Lemma resolveForkLoop_within n m fuel :
  preserves (onThis (historyWithin n m)) (resolveForkLoop source fuel).
Proof.
  induction fuel as [| fuel IH]; simpl.
  - apply preserves_throw.
  - unfold resolveForkTurn.
    apply preserves_bind; [apply preserves_self | intros r].
    destruct (last (blockHistory r)) as [previousBlockData |];
      [| apply preserves_ret].
    destruct (currentBlockData r) as [cur |]; [| apply preserves_throw].
    apply preserves_bind; [apply preserves_getBlock | intros b].
    apply preserves_bind; [apply preserves_update; intros r0 H0; exact H0 |].
    intros _. apply preserves_bind; [apply preserves_self | intros r1].
    assert (preserves (onThis (historyWithin n m))
              (update (set_currentBlockData (Some previousBlockData)) ;;
               update (fun r => set_blockHistory (snd (pop (blockHistory r))) r) ;;
               resolveForkLoop source fuel)) as Hcontinue.
    { apply preserves_bind; [apply preserves_update; intros r0 H0; exact H0 |].
      intros _. apply preserves_bind; [| intros _; exact IH].
      apply preserves_update. intros r0 [Hm Hn]. split; [exact Hm |].
      simpl. pose proof (length_removelast (blockHistory r0)). lia. }
    destruct (currentBlockData r1) as [c |]; [| exact Hcontinue].
    destruct (String.eqb _ _); [apply preserves_ret | exact Hcontinue].
Qed.

Lemma resolveFork_within n m :
  preserves (onThis (historyWithin n m)) (resolveFork source).
Proof.
  unfold resolveFork.
  apply preserves_bind; [apply preserves_self | intros r].
  destruct (currentBlockData r); [| apply preserves_throw].
  apply preserves_bind; [apply resolveForkLoop_within | intros _].
  apply preserves_bind; [apply preserves_self | intros r1].
  apply preserves_bind; [apply preserves_when, preserves_throw | intros _].
  apply preserves_bind; [apply preserves_self | intros r2].
  destruct (last (blockHistory r2)); [| apply preserves_throw].
  apply preserves_update. intros r0 H0. exact H0.
Qed.

Lemma seekToBlock_within n m blockNumber' :
  preserves (onThis (historyWithin n m)) (seekToBlock source blockNumber').
Proof.
  unfold seekToBlock.
  apply preserves_bind; [apply preserves_update; intros r0 H0; exact H0 | intros _].
  apply preserves_bind; [apply preserves_update; intros r0 H0; exact H0 | intros _].
  apply preserves_bind; [apply preserves_self | intros r].
  destruct (blockNumber' <? startAtBlock r); [apply preserves_throw |].
  destruct (blockNumber' =? 1).
  - apply preserves_bind; [| intros _; apply preserves_update; intros r0 H0; exact H0].
    apply preserves_update. intros r0 [Hm Hn]. split; [exact Hm | simpl; lia].
  - apply preserves_bind.
    + apply preserves_when. apply preserves_bind; [| intros _].
      * apply preserves_update. intros r0 [Hm Hn]. split; [exact Hm |].
        simpl. rewrite length_take. lia.
      * apply preserves_update. intros r0 [Hm Hn]. split; [exact Hm |].
        simpl. pose proof (length_removelast (blockHistory r0)). lia.
    + intros _.
      apply preserves_bind; [apply preserves_update; intros r0 H0; exact H0 | intros _].
      apply preserves_bind; [apply preserves_self | intros r1].
      destruct (currentBlockData r1); [apply preserves_ret |].
      apply preserves_bind; [apply preserves_getBlock | intros b].
      apply preserves_update. intros r0 H0. exact H0.
Qed.

Lemma trimHistory_bounded (r : Reader) :
  0 <= maxHistoryLength r -> historyBounded (trimHistory r).
Proof.
  intros H. unfold historyBounded, trimHistory. simpl.
  rewrite length_drop. lia.
Qed.

Lemma acceptBlock_bounded (u : Block Payload) (r : Reader) :
  historyBounded r -> historyBounded (acceptBlock u r).
Proof.
  intros H. unfold acceptBlock.
  assert (0 <= maxHistoryLength r) as Hm by (unfold historyBounded in H; lia).
  change (historyBounded
            (trimHistory match currentBlockData r with
                         | Some c => set_blockHistory (blockHistory r ++ [c]) r
                         | None => r
                         end)).
  apply trimHistory_bounded. destruct (currentBlockData r); exact Hm.
Qed.

Lemma prefetch_bounded :
  preserves (onThis historyBounded) (prefetch source).
Proof.
  unfold prefetch.
  apply preserves_bind; [apply preserves_update; intros r0 H0; exact H0 | intros _].
  apply preserves_bind; [apply preserves_self | intros r].
  apply preserves_bind; [apply preserves_promiseAll | intros result].
  apply preserves_update. intros r0 H0. exact H0.
Qed.

Lemma advance_bounded :
  preserves (onThis historyBounded) (advance source).
Proof.
  unfold advance.
  apply preserves_bind; [apply preserves_self | intros r].
  destruct (currentBlockNumber r <? headBlockNumber r); [| apply preserves_ret].
  apply preserves_bind; [apply preserves_when, prefetch_bounded | intros _].
  apply preserves_bind; [apply preserves_self | intros r1].
  apply preserves_bind; [apply preserves_update; intros r0 H0; exact H0 | intros _].
  destruct (tmpBlocks r1 !! index r1) as [u |]; [| apply preserves_throw].
  destruct (_ || _).
  - apply preserves_bind; [| intros _; apply preserves_ret].
    apply preserves_update. apply acceptBlock_bounded.
  - apply preserves_bind.
    { apply within_bounded. intros n m. apply resolveFork_within. }
    intros _.
    apply preserves_bind; [apply preserves_getHeadBlockNumber | intros h].
    apply preserves_bind; [| intros _; apply preserves_ret].
    apply preserves_update. intros r0 H0. exact H0.
Qed.

Lemma resolveTail_bounded (r : Reader) :
  historyBounded r -> historyBounded (resolveTail r).
Proof.
  intros H. unfold resolveTail. destruct (_ && _); exact H.
Qed.

Lemma nextBlock_bounded :
  preserves (onThis historyBounded) (nextBlock source).
Proof.
  unfold nextBlock, refreshHead.
  apply preserves_bind.
  { apply preserves_bind; [apply preserves_self | intros r].
    apply preserves_when.
    apply preserves_bind; [apply preserves_getHeadBlockNumber | intros h].
    repeat (apply preserves_bind;
            [apply preserves_update; intros r0 H0; exact H0 | intros _]).
    apply preserves_update; intros r0 H0; exact H0. }
  intros _.
  apply preserves_bind; [apply preserves_update, resolveTail_bounded | intros _].
  apply preserves_bind; [apply advance_bounded | intros flags].
  apply preserves_bind; [apply preserves_update; intros r0 H0; exact H0 | intros _].
  apply preserves_bind; [apply preserves_self | intros r].
  destruct (currentBlockData r); [apply preserves_ret | apply preserves_throw].
Qed.

(** C9.  If the history of the reader is no longer than [maxHistoryLength]
    before a call of [nextBlock], [resolveFork] or [seekToBlock], it is no
    longer than [maxHistoryLength] after the call, whether the call returns
    or throws. *)
Theorem history_bound_kept (s : St) (blockNumber' : Z) :
  historyBounded (this s) ->
  historyBounded (this (final (nextBlock source) s)) /\
  historyBounded (this (final (resolveFork source) s)) /\
  historyBounded (this (final (seekToBlock source blockNumber') s)).
Proof.
  intros H. split; [| split].
  - apply (nextBlock_bounded s H).
  - apply (within_bounded (resolveFork source)); [| exact H].
    intros n m. apply resolveFork_within.
  - apply (within_bounded (seekToBlock source blockNumber')); [| exact H].
    intros n m. apply seekToBlock_within.
Qed.

(** *** Fuel of the fork-resolution loop *)

(** Every turn of the loop that does not leave it pops one entry of the
    history, so a fuel above the length of the history is never used up:
    more fuel changes nothing. *)
Lemma resolveForkLoop_fuel_enough (fuel : nat) :
  forall s : St,
    (length (blockHistory (this s)) < fuel)%nat ->
    resolveForkLoop source (S fuel) s = resolveForkLoop source fuel s.
Proof.
  induction fuel as [| fuel IH]; intros s Hlen; [lia |].
  change (resolveForkTurn source (resolveForkLoop source (S fuel)) s =
          resolveForkTurn source (resolveForkLoop source fuel) s).
  unfold resolveForkTurn, bind, self, getBlock, update, modify. simpl.
  destruct (last (blockHistory (this s))) as [previousBlockData |] eqn:Hlast;
    [| reflexivity].
  destruct (currentBlockData (this s)) as [cur |]; [| reflexivity].
  destruct (getBlock_impl source (blockNumber (blockInfo cur)) (chain s))
    as [[b | e] c]; [| reflexivity].
  simpl.
  destruct (String.eqb _ _); [reflexivity |].
  apply IH. simpl.
  destruct (blockHistory (this s)) as [| x l] eqn:Hh; [discriminate |].
  pose proof (length_removelast (x :: l)) as Hr.
  assert (length (removelast (x :: l)) <> length (x :: l)) as Hne.
  { clear. revert x. induction l as [| y l IHl]; intros x; simpl in *; [lia |].
    specialize (IHl y). lia. }
  simpl in *. lia.
Qed.

(** *** Seeking before the start *)

(** C10.  [seekToBlock] with a target below [startAtBlock] throws only after
    it has cleared [currentBlockData] and reset [headBlockNumber] to 0: the
    state in which the error leaves the reader is the prior state with these
    two fields overwritten, and so differs from the prior state whenever the
    reader had a current block or a cached head. *)
Theorem seekToBlock_before_start_not_atomic (s : St) (blockNumber' : Z) :
  blockNumber' < startAtBlock (this s) ->
  seekToBlock source blockNumber' s =
    (Throw (JsError "Cannot seek to block before configured startAtBlock."),
     mkSt (set_headBlockNumber 0 (set_currentBlockData None (this s)))
          (chain s) (calls s)) /\
  (currentBlockData (this s) <> None \/ headBlockNumber (this s) <> 0 ->
   this (final (seekToBlock source blockNumber') s) <> this s).
Proof.
  intros Hlt.
  assert (seekToBlock source blockNumber' s =
    (Throw (JsError "Cannot seek to block before configured startAtBlock."),
     mkSt (set_headBlockNumber 0 (set_currentBlockData None (this s)))
          (chain s) (calls s))) as Heq.
  { unfold seekToBlock, bind, update, modify, self. simpl.
    destruct (blockNumber' <? startAtBlock (this s)) eqn:E; [reflexivity | lia]. }
  split; [exact Heq |].
  intros Hlost Hsame. unfold final in Hsame. rewrite Heq in Hsame. simpl in Hsame.
  destruct Hlost as [Hdata | Hhead].
  - apply Hdata. rewrite <- Hsame. reflexivity.
  - apply Hhead. rewrite <- Hsame. reflexivity.
Qed.

(** *** Seeking to a block the history does not hold *)

Lemma scanHistory_miss (blockNumber' : Z) (newestFirst : list (Block Payload)) :
  forall toDelete,
    Forall (fun b => blockNumber (blockInfo b) <> blockNumber') newestFirst ->
    scanHistory blockNumber' newestFirst toDelete
      = toDelete + Z.of_nat (length newestFirst).
Proof.
  induction newestFirst as [| b older IH]; intros toDelete Hmiss; simpl.
  - lia.
  - inversion Hmiss as [| ? ? Hb Holder]; subst.
    destruct (Z.eqb_spec (blockNumber (blockInfo b)) blockNumber') as [He | He];
      [contradiction |].
    rewrite (IH (toDelete + 1) Holder). lia.
Qed.

(** When no entry of the history has the number sought, the scan still
    counts every entry: the last entry is dropped, the one before it becomes
    the current block, and [getBlock] is not called. *)
Lemma seekToBlock_miss (s : St) (blockNumber' : Z) (b : Block Payload) :
  startAtBlock (this s) <= blockNumber' ->
  blockNumber' <> 1 ->
  Forall (fun b => blockNumber (blockInfo b) <> blockNumber') (blockHistory (this s)) ->
  last (removelast (blockHistory (this s))) = Some b ->
  seekToBlock source blockNumber' s =
    (Normal tt,
     mkSt (set_currentBlockNumber (blockNumber' - 1)
             (set_currentBlockData (Some b)
                (set_blockHistory (removelast (removelast (blockHistory (this s))))
                   (set_headBlockNumber 0 (this s)))))
          (chain s) (calls s)).
Proof.
  intros Hstart Hone Hmiss Hlast.
  unfold seekToBlock, bind, update, modify, self. simpl.
  destruct (Z.ltb_spec blockNumber' (startAtBlock (this s))) as [Hlt | _]; [lia |].
  destruct (Z.eqb_spec blockNumber' 1) as [He | _]; [contradiction |].
  rewrite scanHistory_miss by (apply Forall_rev, Hmiss).
  rewrite length_rev.
  set (h := blockHistory (this s)) in *.
  assert (0 < length h)%nat as Hlen
    by (destruct h; [discriminate Hlast | simpl; lia]).
  assert (take (Z.to_nat (-1 + Z.of_nat (length h))) h = removelast h) as Htake.
  { rewrite removelast_firstn_len. f_equal. lia. }
  destruct (Z.leb_spec 0 (-1 + Z.of_nat (length h))) as [_ | Hneg]; [| lia].
  simpl. fold h. rewrite Htake, Hlast. reflexivity.
Qed.

(** *** The wrap to the end of the chain *)

(** C3, amended.  When [currentBlockNumber] is negative and the history is
    empty, the wrap sets [currentBlockNumber] to head + [currentBlockNumber]
    and [startAtBlock] to one more than that.  For a reader as the
    constructor leaves it ([currentBlockNumber = startAtBlock - 1]) this is
    head + [startAtBlock] - 1 for [currentBlockNumber] and
    head + [startAtBlock] for [startAtBlock]: the reader stands on the block
    before the first one it will deliver. *)
Theorem resolveTail_wraps (r : Reader) :
  currentBlockNumber r < 0 ->
  blockHistory r = [] ->
  currentBlockNumber (resolveTail r) = headBlockNumber r + currentBlockNumber r /\
  startAtBlock (resolveTail r) = currentBlockNumber (resolveTail r) + 1 /\
  (currentBlockNumber r = startAtBlock r - 1 ->
   currentBlockNumber (resolveTail r) = headBlockNumber r + startAtBlock r - 1 /\
   startAtBlock (resolveTail r) = headBlockNumber r + startAtBlock r).
Proof.
  intros Hneg Hempty. unfold resolveTail. rewrite Hempty. simpl.
  destruct (currentBlockNumber r <? 0) eqn:E; [| lia]. simpl.
  repeat split; lia.
Qed.

(** *** The refill of the prefetch buffer *)

Lemma issueAll_calls (ns : list Z) :
  forall s : St,
    calls (snd (issueAll source ns s)) = calls s ++ map CallGetBlock ns /\
    this (snd (issueAll source ns s)) = this s.
Proof.
  induction ns as [| n ns IH]; intros s; cbn [issueAll].
  - simpl. rewrite app_nil_r. split; reflexivity.
  - destruct (getBlock source n s) as [r s1] eqn:Hg.
    assert (calls s1 = calls s ++ [CallGetBlock n] /\ this s1 = this s) as [Hc1 Ht1].
    { unfold getBlock in Hg.
      destruct (getBlock_impl source n (chain s)) as [r' c].
      inversion Hg. split; reflexivity. }
    destruct (IH s1) as [Hc Ht].
    destruct (issueAll source ns s1) as [[l | e] s2]; simpl in *;
      (split; [rewrite Hc, Hc1, <- app_assoc; reflexivity | congruence]).
Qed.

(** Whatever the reader's position, the refill asks for the blocks
    0, 1, ..., head - 1 and leaves [currentBlockNumber] at 0. *)
Lemma prefetch_from_zero (s : St) :
  calls (final (prefetch source) s) =
    calls s ++ map CallGetBlock (countFrom 0 (Z.to_nat (headBlockNumber (this s)))) /\
  currentBlockNumber (this (final (prefetch source) s)) = 0.
Proof.
  unfold final, prefetch, promiseAll, bind, update, modify, self. simpl.
  match goal with
  | |- context [issueAll source ?ns ?s1] =>
      destruct (issueAll_calls ns s1) as [Hc Ht];
      destruct (issueAll source ns s1) as [[l | e] s2]
  end; simpl in *.
  - destruct (awaitAll l); simpl; rewrite Hc, Ht; split; reflexivity.
  - rewrite Hc, Ht. split; reflexivity.
Qed.

End WithChain.

(** *** Runs on the sample chain *)

Import Sample.

(** C1.  A reader built to start at block 6 stands on block 5; the head of
    the chain is 8 and the prefetch buffer is empty.  [nextBlock] then asks
    for the blocks 0 to 7 (not 6 to 8), stores them in the buffer, and the
    refill itself has moved [currentBlockNumber] from 5 to 0, so that the
    block delivered is block 0. *)
Theorem nextBlock_prefetches_from_zero :
  let s := start (constructor 6 false 600) chain8 in
  currentBlockNumber (this s) = 5 /\
  tmpBlocks (this s) = [] /\
  getHeadBlockNumber_impl listSource chain8 = (Normal 8, chain8) /\
  fst (nextBlock listSource s) = Normal (b0, false, true) /\
  calls (final (nextBlock listSource) s) =
    CallGetHeadBlockNumber :: map CallGetBlock [0; 1; 2; 3; 4; 5; 6; 7] /\
  tmpBlocks (this (final (nextBlock listSource) s)) = [b0; b1; b2; b3; b4; b5; b6; b7] /\
  currentBlockNumber (this (final (nextBlock listSource) s)) = 0 /\
  currentBlockNumber
    (this (final (prefetch listSource)
             (mkSt (set_headBlockNumber 8 (this s)) chain8 []))) = 0.
Proof. vm_compute. repeat split; reflexivity. Qed.

Lemma seven_blocks_delivered :
  deliver 7 (start (constructor 1 false 3) chain8) = reached (reader6 3 [b3; b4; b5]) /\
  deliver 7 (start (constructor 1 false 600) chain8)
    = reached (reader6 600 [b0; b1; b2; b3; b4; b5]).
Proof. vm_compute. split; reflexivity. Qed.

(** C2.  The reader holds block 6 and the history [b3; b4; b5], and is asked
    to seek to block 2, which the history does not hold: it takes block 4 out
    of the history as its current block, keeps [b3], and does not call
    [getBlock 1].  With the history [b0; ...; b5] it is asked to seek to
    block 3, which the history holds at index 3: the history is emptied and
    block 0 becomes the current block. *)
Theorem seekToBlock_misuses_scan_count :
  List.find (numbered 2) [b3; b4; b5] = None /\
  seekToBlock listSource 2 (reached (reader6 3 [b3; b4; b5])) =
    (Normal tt,
     reached (set_currentBlockNumber 1
                (set_currentBlockData (Some b4)
                   (set_blockHistory [b3]
                      (set_headBlockNumber 0 (reader6 3 [b3; b4; b5])))))) /\
  [b0; b1; b2; b3; b4; b5] !! 3%nat = Some b3 /\
  seekToBlock listSource 3 (reached (reader6 600 [b0; b1; b2; b3; b4; b5])) =
    (Normal tt,
     reached (set_currentBlockNumber 2
                (set_currentBlockData (Some b0)
                   (set_blockHistory []
                      (set_headBlockNumber 0
                         (reader6 600 [b0; b1; b2; b3; b4; b5])))))).
Proof. vm_compute. repeat split; reflexivity. Qed.

(** At a reader built with [startAtBlock = -5] and a head of 100, the wrap
    leaves [currentBlockNumber] at 94, not at 100 + (-5) = 95. *)
Lemma resolveTail_not_head_plus_start :
  let r : Reader unit := set_headBlockNumber 100 (constructor (-5) false 600) in
  currentBlockNumber r < 0 /\
  blockHistory r = [] /\
  currentBlockNumber (resolveTail r) = 94 /\
  currentBlockNumber (resolveTail r) <> headBlockNumber r + startAtBlock r /\
  startAtBlock (resolveTail r) = 95.
Proof. vm_compute. repeat split; congruence. Qed.

Lemma resolveTail_wraps_witness :
  let r : Reader unit := set_headBlockNumber 100 (constructor (-5) false 600) in
  currentBlockNumber (resolveTail r) = headBlockNumber r + currentBlockNumber r /\
  startAtBlock (resolveTail r) = currentBlockNumber (resolveTail r) + 1 /\
  (currentBlockNumber r = startAtBlock r - 1 ->
   currentBlockNumber (resolveTail r) = headBlockNumber r + startAtBlock r - 1 /\
   startAtBlock (resolveTail r) = headBlockNumber r + startAtBlock r).
Proof.
  apply (resolveTail_wraps
           (set_headBlockNumber 100 (constructor (-5) false 600)));
    [simpl; lia | reflexivity].
Defined.

Lemma seekToBlock_before_start_not_atomic_witness :
  let s := reached (reader6 3 [b3; b4; b5]) in
  seekToBlock listSource 0 s =
    (Throw (JsError "Cannot seek to block before configured startAtBlock."),
     mkSt (set_headBlockNumber 0 (set_currentBlockData None (this s)))
          (chain s) (calls s)) /\
  (currentBlockData (this s) <> None \/ headBlockNumber (this s) <> 0 ->
   this (final (seekToBlock listSource 0) s) <> this s).
Proof.
  apply (seekToBlock_before_start_not_atomic listSource
           (reached (reader6 3 [b3; b4; b5])) 0).
  simpl. lia.
Defined.

Lemma history_bound_kept_witness :
  let s := reached (reader6 3 [b3; b4; b5]) in
  historyBounded (this (final (nextBlock listSource) s)) /\
  historyBounded (this (final (resolveFork listSource) s)) /\
  historyBounded (this (final (seekToBlock listSource 2) s)).
Proof.
  apply (history_bound_kept listSource (reached (reader6 3 [b3; b4; b5])) 2).
  unfold historyBounded. simpl. lia.
Defined.

End ReaderFacts.

(** ** The handler *)

Module HandlerFacts.

Import Handler.

Section WithBinder.

Context {Payload StateRef CtxRef World : Type}.
Context (binder : Binder Payload StateRef CtxRef World).

Local Abbreviation Handler := (Handler Payload StateRef CtxRef World).
Local Abbreviation St := (St Payload StateRef CtxRef World).
Local Abbreviation Version := (HandlerVersion Payload StateRef CtxRef World).
Local Abbreviation registeredIn :=
  (Handler.registeredIn (Payload := Payload) (StateRef := StateRef)
     (CtxRef := CtxRef) (World := World)).
Local Abbreviation emits :=
  (Handler.emits (Payload := Payload) (StateRef := StateRef) (CtxRef := CtxRef)
     (World := World)).

(** *** What a computation adds to the trace *)

Lemma emits_ret {A} Q (a : A) : emits Q (ret a).
Proof. intros s. exists []. simpl. rewrite app_nil_r. auto. Qed.

Lemma emits_throw {A} Q e : emits Q (@throw St A e).
Proof. intros s. exists []. simpl. rewrite app_nil_r. auto. Qed.

Lemma emits_self Q : emits Q (self (World := World)).
Proof. intros s. exists []. simpl. rewrite app_nil_r. auto. Qed.

Lemma emits_update Q (f : Handler -> Handler) : emits Q (update f).
Proof. intros s. exists []. simpl. rewrite app_nil_r. auto. Qed.

Lemma emits_bind {A B} Q (c : M St A) (k : A -> M St B) :
  emits Q c -> (forall a, emits Q (k a)) -> emits Q (bind c k).
Proof.
  intros Hc Hk s. unfold bind.
  destruct (Hc s) as [evs [He Hq]].
  destruct (c s) as [[a | e] s1]; simpl in *.
  - destruct (Hk a s1) as [evs' [He' Hq']].
    exists (evs ++ evs'). rewrite He', He, app_assoc. split; [reflexivity |].
    apply Forall_app; auto.
  - exists evs. auto.
Qed.

Lemma emits_when Q (b : bool) (c : M St unit) : emits Q c -> emits Q (when b c).
Proof. intros Hc. destruct b; [exact Hc | apply emits_ret]. Qed.

Lemma emits_call {A} (Q : Event -> Prop) e (f : World -> completion A * World) :
  Q e -> emits Q (call e f).
Proof.
  intros He s. unfold call. destruct (f (world s)) as [r w].
  exists [e]. simpl. auto.
Qed.

Lemma emits_resume {A} Q (f : World -> completion A * World) : emits Q (resume f).
Proof.
  intros s. unfold resume. destruct (f (world s)) as [r w].
  exists []. simpl. rewrite app_nil_r. auto.
Qed.






(** *** Effects and replay *)



Lemma actionLoop_fst state block isReplay context todo :
  forall versionedActions (s s1 : St) result,
    actionLoop binder state block isReplay context todo versionedActions s
      = (Normal result, s1) ->
    map fst result = map fst versionedActions ++ todo.
Proof.
  induction todo as [| action rest IH]; intros acc s s1 result H; simpl in H.
  - inversion H. rewrite app_nil_r. reflexivity.
  - unfold bind in H.
    destruct (applyToAction _ _ _ _ _ _ s) as [[brk | e] s0]; [| discriminate].
    simpl in H. apply IH in H. rewrite H, map_app. simpl.
    rewrite <- app_assoc. reflexivity.
Qed.

Lemma hasOwnProperty_true name (m : gmap string Version) :
  hasOwnProperty name m = true <-> is_Some (m !! name).
Proof. unfold hasOwnProperty. rewrite bool_decide_eq_true. reflexivity. Qed.

(** *** The calls of the loops, compared with the lists *)











(** *** The active version and the registered versions *)

Lemma getVersion_own name (h : Handler) (hv : Version) :
  handlerVersionMap h !! name = Some hv -> getVersion name h = Some hv.
Proof. intros H. unfold getVersion. rewrite H. reflexivity. Qed.

Lemma callHasOwnProperty_plain name (m : gmap string Version) :
  m !! "hasOwnProperty" = None ->
  callHasOwnProperty name m = Normal (hasOwnProperty name m).
Proof. intros H. unfold callHasOwnProperty. rewrite H. reflexivity. Qed.

Lemma callHasOwnProperty_false name (m : gmap string Version) :
  callHasOwnProperty name m = Normal false ->
  m !! "hasOwnProperty" = None /\ m !! name = None.
Proof.
  unfold callHasOwnProperty, hasOwnProperty.
  destruct (m !! "hasOwnProperty"); [discriminate |].
  case_bool_decide as Hhas; [discriminate |]. intros _. split; [reflexivity |].
  destruct (m !! name) eqn:E; [| reflexivity]. exfalso. apply Hhas. eauto.
Qed.

Lemma assignVersion_proto (hv : Version) (h : Handler) :
  handlerVersionMap h !! "__proto__" = None ->
  assignVersion "__proto__" hv h = set_handlerVersionMapProto (Some hv) h.
Proof.
  intros H. unfold assignVersion, hasOwnProperty.
  case_bool_decide as Hhas; [| reflexivity].
  rewrite H in Hhas. destruct Hhas as [x Hx]. discriminate.
Qed.

Lemma assignVersion_plain name (hv : Version) (h : Handler) :
  name <> "__proto__" ->
  assignVersion name hv h =
    set_handlerVersionMap (<[name := hv]> (handlerVersionMap h)) h.
Proof.
  intros H. unfold assignVersion.
  destruct (String.eqb_spec name "__proto__"); [contradiction | reflexivity].
Qed.

(** What the registration loop leaves when it runs to its end. *)
Lemma registerVersions_result (handlerVersions : list Version) :
  forall h0 h : Handler,
    registerVersions handlerVersions h0 = Normal h ->
    lastProcessedBlockNumber h = lastProcessedBlockNumber h0 /\
    lastProcessedBlockHash h = lastProcessedBlockHash h0 /\
    handlerVersionName h = handlerVersionName h0 /\
    (forall key hv,
       handlerVersionMap h !! key = Some hv <->
       handlerVersionMap h0 !! key = Some hv \/
       (In hv handlerVersions /\ versionName hv = key /\ key <> "__proto__")) /\
    handlerVersionMapProto h =
      from_option Some (handlerVersionMapProto h0) (lastProto handlerVersions).
Proof.
  induction handlerVersions as [| x rest IH]; intros h0 h H; simpl in H.
  - inversion H; subst.
    split; [reflexivity | split; [reflexivity | split; [reflexivity | split]]].
    + intros key hv. split; [auto | intros [Hm | [[] _]]; exact Hm].
    + reflexivity.
  - destruct (callHasOwnProperty (versionName x) (handlerVersionMap h0))
      as [[|] | e] eqn:Hcall; try discriminate.
    apply callHasOwnProperty_false in Hcall. destruct Hcall as [_ Hfree].
    apply IH in H. destruct H as [Hn [Hh [Hv [Hlookup Hproto]]]].
    destruct (String.eqb_spec (versionName x) "__proto__") as [Hp | Hp].
    + rewrite Hp in Hfree. rewrite Hp, (assignVersion_proto x h0 Hfree) in *.
      cbn [set_handlerVersionMapProto lastProcessedBlockNumber lastProcessedBlockHash
             handlerVersionName handlerVersionMap handlerVersionMapProto]
        in Hn, Hh, Hv, Hlookup, Hproto.
      split; [exact Hn | split; [exact Hh | split; [exact Hv | split]]].
      * intros key hv. rewrite (Hlookup key hv). split.
        -- intros [Hm | [Hin Hname]]; [left; exact Hm |].
           right. split; [right; exact Hin | exact Hname].
        -- intros [Hm | [[Hx | Hin] [Hname Hne]]]; [left; exact Hm | |].
           ++ subst. contradiction.
           ++ right. repeat split; assumption.
      * rewrite Hproto. unfold lastProto. cbn [List.filter]. rewrite Hp.
        cbn [String.eqb Ascii.eqb Bool.eqb]. cbn beta iota.
        rewrite last_cons. destruct (last _); reflexivity.
    + rewrite (assignVersion_plain _ x h0 Hp) in *.
      cbn [set_handlerVersionMap lastProcessedBlockNumber lastProcessedBlockHash
             handlerVersionName handlerVersionMap handlerVersionMapProto]
        in Hn, Hh, Hv, Hlookup, Hproto.
      split; [exact Hn | split; [exact Hh | split; [exact Hv | split]]].
      * intros key hv. rewrite (Hlookup key hv).
        destruct (decide (versionName x = key)) as [He | Hne].
        -- rewrite <- He, lookup_insert_eq, Hfree. split.
           ++ intros [Hx | [Hin Hname]].
              ** inversion Hx; subst. right. repeat split; [left; reflexivity | exact Hp].
              ** right. split; [right; exact Hin | exact Hname].
           ++ intros [Hm | [[Hx | Hin] Hname]].
              ** discriminate.
              ** subst. left. reflexivity.
              ** right. split; assumption.
        -- rewrite lookup_insert_ne by exact Hne. split.
           ++ intros [Hm | [Hin Hname]]; [left; exact Hm |].
              right. split; [right; exact Hin | exact Hname].
           ++ intros [Hm | [[Hx | Hin] Hname]]; [left; exact Hm | |].
              ** subst. destruct Hname as [Hname _]. contradiction.
              ** right. split; assumption.
      * rewrite Hproto. unfold lastProto. cbn [List.filter].
        destruct (String.eqb_spec (versionName x) "__proto__"); [contradiction |].
        reflexivity.
Qed.

(** The constructor returns when the list is not empty, the loop runs to its
    end and no version has shadowed [hasOwnProperty]; the handler then starts
    under "v1" if that is an own key, and under the first version's name
    otherwise. *)
Lemma constructor_inv (handlerVersions : list Version) (h : Handler) :
  constructor handlerVersions = Normal h <->
  exists first rest h1,
    handlerVersions = first :: rest /\
    registerVersions handlerVersions initialFields = Normal h1 /\
    handlerVersionMap h1 !! "hasOwnProperty" = None /\
    h = (if hasOwnProperty "v1" (handlerVersionMap h1) then h1
         else set_handlerVersionName (versionName first) h1).
Proof.
  unfold constructor, initHandlerVersions.
  destruct handlerVersions as [| first rest].
  - split; [discriminate | intros [? [? [? [H _]]]]; discriminate].
  - destruct (registerVersions (first :: rest) initialFields) as [h1 | e] eqn:Hreg.
    + pose proof (registerVersions_result _ _ _ Hreg) as [_ [_ [Hname _]]].
      rewrite Hname. cbn [initialFields handlerVersionName].
      unfold callHasOwnProperty.
      destruct (handlerVersionMap h1 !! "hasOwnProperty") eqn:Hown.
      * split; [discriminate |].
        intros [? [? [h2 [_ [Heq [Hnone _]]]]]]. inversion Heq; subst.
        rewrite Hown in Hnone. discriminate.
      * split.
        -- intros H. exists first, rest, h1.
           split; [reflexivity | split; [reflexivity | split; [exact Hown |]]].
           destruct (hasOwnProperty "v1" (handlerVersionMap h1));
             inversion H; reflexivity.
        -- intros [first' [rest' [h2 [Hl [Heq [_ Hh]]]]]].
           inversion Hl; subst first' rest'. inversion Heq; subst h2.
           rewrite Hh. destruct (hasOwnProperty "v1" (handlerVersionMap h1));
             reflexivity.
    + split; [discriminate |].
      intros [? [? [h2 [_ [Heq _]]]]]. discriminate.
Qed.

(** The map of a constructed handler has the own keys of the versions not
    named ["__proto__"], and none named ["hasOwnProperty"]. *)
Lemma constructor_lookup (handlerVersions : list Version) (h : Handler) :
  constructor handlerVersions = Normal h ->
  (forall key hv,
     handlerVersionMap h !! key = Some hv <->
     In hv handlerVersions /\ versionName hv = key /\ key <> "__proto__") /\
  handlerVersionMap h !! "hasOwnProperty" = None /\
  handlerVersionMapProto h = lastProto handlerVersions /\
  lastProcessedBlockNumber h = 0 /\
  lastProcessedBlockHash h = "" /\
  handlerVersionName h =
    (if hasOwnProperty "v1" (handlerVersionMap h) then "v1"
     else from_option versionName "v1" (head handlerVersions)).
Proof.
  intros H. apply constructor_inv in H.
  destruct H as [first [rest [h1 [Hl [Hreg [Hown Hh]]]]]].
  pose proof (registerVersions_result _ _ _ Hreg)
    as [Hn [Hhash [Hname [Hlookup Hproto]]]].
  assert (handlerVersionMap h = handlerVersionMap h1 /\
          handlerVersionMapProto h = handlerVersionMapProto h1 /\
          lastProcessedBlockNumber h = lastProcessedBlockNumber h1 /\
          lastProcessedBlockHash h = lastProcessedBlockHash h1) as [Em [Ep [En Eh]]].
  { rewrite Hh. destruct (hasOwnProperty "v1" _); repeat split; reflexivity. }
  rewrite Em, Ep, En, Eh.
  split; [| split; [exact Hown | split; [| split; [| split]]]].
  - intros key hv. rewrite (Hlookup key hv). cbn [initialFields handlerVersionMap].
    rewrite lookup_empty. split; [intros [Hm | Hm]; [discriminate | exact Hm] | auto].
  - rewrite Hproto. cbn. destruct (lastProto handlerVersions); reflexivity.
  - rewrite Hn. reflexivity.
  - rewrite Hhash. reflexivity.
  - rewrite Hh, Hl. cbn [head from_option].
    destruct (hasOwnProperty "v1" (handlerVersionMap h1)); [exact Hname | reflexivity].
Qed.

(** In a constructed handler no version shadows [hasOwnProperty]: the call
    [this.handlerVersionMap.hasOwnProperty(name)] reaches the method of
    [Object.prototype]. *)
Lemma constructor_keeps_method (handlerVersions : list Version) (h : Handler) name :
  constructor handlerVersions = Normal h ->
  callHasOwnProperty name (handlerVersionMap h)
    = Normal (hasOwnProperty name (handlerVersionMap h)).
Proof.
  intros H. apply constructor_lookup in H. destruct H as [_ [Hown _]].
  apply callHasOwnProperty_plain, Hown.
Qed.

(** A constructed handler runs under a registered version unless it starts
    under the name ["__proto__"], which is never an own key of the map. *)
Lemma constructor_registered (handlerVersions : list Version) (h : Handler) :
  constructor handlerVersions = Normal h ->
  handlerVersionName h <> "__proto__" ->
  versionRegistered h.
Proof.
  intros H Hp. pose proof (constructor_lookup _ _ H) as [Hlookup [_ [_ [_ [_ Hname]]]]].
  unfold versionRegistered.
  destruct (hasOwnProperty "v1" (handlerVersionMap h)) eqn:Hv1.
  - rewrite Hname. apply hasOwnProperty_true, Hv1.
  - destruct handlerVersions as [| first rest].
    + apply constructor_inv in H. destruct H as [? [? [? [H _]]]]. discriminate.
    + cbn in Hname. exists first. apply Hlookup.
      repeat split; [left; reflexivity | symmetry; exact Hname | exact Hp].
Qed.

Lemma registered_call {A} m e (f : World -> completion A * World) :
  preserves (registeredIn m) (call e f).
Proof. intros s H. unfold call. destruct (f (world s)). exact H. Qed.

Lemma registered_resume {A} m (f : World -> completion A * World) :
  preserves (registeredIn m) (resume f).
Proof. intros s H. unfold resume. destruct (f (world s)). exact H. Qed.

Lemma registered_self m : preserves (registeredIn m) (self (World := World)).
Proof. intros s H. exact H. Qed.

Lemma registered_set_last m n hash :
  preserves (registeredIn m)
    (update (set_lastProcessedBlockNumber n) ;;
     update (set_lastProcessedBlockHash (World := World) hash)).
Proof. intros s H. exact H. Qed.

Lemma updaterLoop_registered m state block isReplay context action name us :
  forall updaterIndex,
    preserves (registeredIn m)
      (updaterLoop binder state block isReplay context action name us updaterIndex).
Proof.
  induction us as [| updater rest IH]; intros updaterIndex; simpl.
  - apply preserves_ret.
  - destruct (String.eqb _ _); [| apply IH].
    intros s H. unfold bind at 1.
    pose proof (registered_call m
                  (EvApply name (updaterIndex + 1) (type action))
                  (apply updater state (payload action) (blockInfo block) context)
                  s H) as H1.
    destruct (call _ _ s) as [[newVersion | e] s1]; simpl in H1; [| exact H1].
    unfold bind at 1. unfold self at 1.
    destruct newVersion as [v |]; [| apply IH, H1].
    destruct (hasOwnProperty v (handlerVersionMap (this s1))) eqn:Hhas;
      destruct (truthy v); simpl; try (apply IH, H1).
    unfold bind at 1.
    pose proof (registered_call m
                  (EvUpdateIndexState (blockNumber (blockInfo block)) isReplay v)
                  (updateIndexState_impl binder state block isReplay v context)
                  s1 H1) as H2.
    unfold updateIndexState.
    destruct (call _ _ s1) as [[[] | e] s2] eqn:Hcall; simpl in H2; [| exact H2].
    simpl. destruct H2 as [Hm Hin]. split; [exact Hm |]. simpl.
    apply hasOwnProperty_true in Hhas.
    assert (this s2 = this s1) as Hthis.
    { unfold call in Hcall. destruct (updateIndexState_impl _ _ _ _ _ _ _).
      inversion Hcall. reflexivity. }
    destruct H1 as [Hm1 _]. rewrite <- Hm1. exact Hhas.
Qed.

Lemma applyToAction_registered m state block isReplay context action :
  preserves (registeredIn m) (applyToAction binder state block isReplay context action).
Proof.
  apply preserves_bind; [apply registered_self | intros h].
  destruct (getVersion _ _); [apply updaterLoop_registered | apply preserves_throw].
Qed.

Lemma actionLoop_registered m state block isReplay context todo :
  forall versionedActions,
    preserves (registeredIn m)
      (actionLoop binder state block isReplay context todo versionedActions).
Proof.
  induction todo as [| action rest IH]; intros versionedActions; simpl.
  - apply preserves_ret.
  - apply preserves_bind; [apply applyToAction_registered | intros _].
    apply preserves_bind; [apply registered_self | intros h]. apply IH.
Qed.

Lemma effectLoop_registered m block context action name es :
  forall effectIndex,
    preserves (registeredIn m) (effectLoop block context action name es effectIndex).
Proof.
  induction es as [| effect rest IH]; intros effectIndex; simpl.
  - apply preserves_ret.
  - apply preserves_bind; [| intros _; apply IH].
    apply preserves_when, registered_call.
Qed.

Lemma runEffects_registered m versionedActions block context :
  preserves (registeredIn m) (runEffects versionedActions block context).
Proof.
  induction versionedActions as [| [action name] rest IH]; simpl.
  - apply preserves_ret.
  - apply preserves_bind; [apply registered_self | intros h].
    destruct (getVersion _ _); [| apply preserves_throw].
    apply preserves_bind; [apply effectLoop_registered | intros _; exact IH].
Qed.

Lemma handleActions_registered m state block context isReplay :
  preserves (registeredIn m) (handleActions binder state block context isReplay).
Proof.
  unfold handleActions.
  apply preserves_bind; [apply actionLoop_registered | intros versionedActions].
  apply preserves_bind; [apply preserves_when, runEffects_registered | intros _].
  apply preserves_bind; [apply registered_self | intros h].
  apply preserves_bind; [apply registered_call | intros _].
  apply registered_set_last.
Qed.

Lemma handleWithState_registered m handle :
  (forall state context, preserves (registeredIn m) (handle state context)) ->
  preserves (registeredIn m) (handleWithState binder handle).
Proof.
  intros Hh. unfold handleWithState.
  apply preserves_bind; [apply registered_call | intros args].
  intros s H. specialize (Hh (fst args) (snd args) s H).
  destruct (handle _ _ s) as [r s1]. simpl in Hh.
  apply (registered_resume m _ s1 Hh).
Qed.

(** [refreshIndexState] takes the version name from the loaded index state,
    whatever it is. *)
Lemma refreshIndexState_loaded (s : St) loaded w :
  loadIndexState_impl binder (world s) = (Normal loaded, w) ->
  refreshIndexState binder s =
    (Normal tt,
     mkSt (mkHandler (indexBlockNumber loaded) (indexBlockHash loaded)
             (indexHandlerVersionName loaded) (handlerVersionMap (this s))
             (handlerVersionMapProto (this s)))
          w (trace s ++ [EvLoadIndexState])).
Proof.
  intros H. unfold refreshIndexState, loadIndexState, bind, call. rewrite H.
  reflexivity.
Qed.

Lemma refreshIndexState_registered m (s : St) :
  loadsRegisteredAt binder m (world s) ->
  registeredIn m s ->
  registeredIn m (snd (refreshIndexState binder s)).
Proof.
  intros Hload [Hm Hin].
  destruct (loadIndexState_impl binder (world s)) as [[loaded | e] w] eqn:Hl.
  - rewrite (refreshIndexState_loaded s loaded w Hl). simpl.
    split; [exact Hm |]. simpl. apply (Hload _ _ Hl).
  - unfold refreshIndexState, loadIndexState, bind, call. rewrite Hl. simpl.
    split; assumption.
Qed.

Lemma rollbackOrColdStart_registered m block isRollback isFirstBlock isReplay (s : St) :
  (forall w, worldAtLoad binder block isRollback isFirstBlock isReplay s = Some w ->
             loadsRegisteredAt binder m w) ->
  registeredIn m s ->
  registeredIn m (snd (rollbackOrColdStart binder block isRollback isFirstBlock isReplay s)).
Proof.
  unfold worldAtLoad, rollbackOrColdStart. intros Hload Hin.
  unfold bind at 1. unfold self at 1. cbv beta iota.
  destruct (isRollback || isReplay && isFirstBlock).
  - unfold bind at 1. unfold rollbackTo, call.
    destruct (rollbackTo_impl binder (blockNumber (blockInfo block) - 1) (world s))
      as [[[] | e] w]; cbn [snd]; [| exact Hin].
    apply refreshIndexState_registered; [exact (Hload w eq_refl) | exact Hin].
  - destruct (_ && _); [| exact Hin].
    apply refreshIndexState_registered; [exact (Hload _ eq_refl) | exact Hin].
Qed.

Lemma checkAndApply_registered m block isFirstBlock isReplay :
  preserves (registeredIn m) (checkAndApply binder block isFirstBlock isReplay).
Proof.
  unfold checkAndApply.
  apply preserves_bind; [apply registered_self | intros h].
  assert (preserves (registeredIn m)
            (handleWithState binder
               (fun state context =>
                  handleActions binder state block
                    (default (emptyContext binder) context) isReplay) ;;
             ret (false, 0))) as Happly.
  { apply preserves_bind; [| intros _; apply preserves_ret].
    apply handleWithState_registered. intros state context.
    apply handleActions_registered. }
  destruct (_ && _); [apply preserves_ret |].
  destruct (_ && _); [apply preserves_ret |].
  destruct (negb isFirstBlock); [| exact Happly].
  destruct (negb _); [apply preserves_ret |].
  destruct (negb _); [apply preserves_throw | exact Happly].
Qed.

(** C4, amended.  The constructor leaves the active version name an own key
    of the version map unless the handler starts under the name "__proto__"
    (an assignment to that key creates no own property), and [applyUpdaters]
    keeps the name a key.  [refreshIndexState] sets the name to the one of
    the loaded index state, whatever it is: after it the name is a key of the
    map when the index state loaded in that call names a registered version,
    and likewise after [handleBlock], whose first statement is the only one
    that loads an index state (and nothing is asked when it loads none). *)
Theorem version_name_registered (s : St) state block isRollback isFirstBlock isReplay
    context :
  versionRegistered (this s) ->
  (forall (handlerVersions : list Version) (h : Handler),
     constructor handlerVersions = Normal h ->
     handlerVersionName h <> "__proto__" ->
     versionRegistered h) /\
  versionRegistered
    (this (final (applyUpdaters binder state block isReplay context) s)) /\
  (forall loaded w,
     loadIndexState_impl binder (world s) = (Normal loaded, w) ->
     handlerVersionName (this (final (refreshIndexState binder) s)) =
       indexHandlerVersionName loaded /\
     handlerVersionMap (this (final (refreshIndexState binder) s)) =
       handlerVersionMap (this s)) /\
  (loadsRegisteredAt binder (handlerVersionMap (this s)) (world s) ->
   versionRegistered (this (final (refreshIndexState binder) s))) /\
  ((forall w,
      worldAtLoad binder block isRollback isFirstBlock isReplay s = Some w ->
      loadsRegisteredAt binder (handlerVersionMap (this s)) w) ->
   versionRegistered
     (this (final (handleBlock binder block isRollback isFirstBlock isReplay) s))).
Proof.
  intros Hreg.
  assert (registeredIn (handlerVersionMap (this s)) s) as Hin
    by (split; [reflexivity | exact Hreg]).
  assert (forall s' : St,
            registeredIn (handlerVersionMap (this s)) s' ->
            versionRegistered (this s')) as Hback.
  { intros s' [Hm Hs]. unfold versionRegistered. rewrite Hm. exact Hs. }
  split; [exact constructor_registered |].
  split; [| split; [| split]].
  - apply Hback. apply (actionLoop_registered _ _ _ _ _ _ _ s Hin).
  - intros loaded w Hl. unfold final.
    rewrite (refreshIndexState_loaded s loaded w Hl). split; reflexivity.
  - intros Hload. apply Hback.
    apply (refreshIndexState_registered _ s Hload Hin).
  - intros Hload. apply Hback. unfold final, handleBlock, bind.
    pose proof (rollbackOrColdStart_registered _ block isRollback isFirstBlock
                  isReplay s Hload Hin) as H1.
    destruct (rollbackOrColdStart binder block isRollback isFirstBlock isReplay s)
      as [[[] | e] s1]; cbn [snd] in H1 |- *; [| exact H1].
    apply (checkAndApply_registered _ block isFirstBlock isReplay s1 H1).
Qed.


(** *** The checks of [handleBlock] *)

Lemma rollbackOrColdStart_emits block isRollback isFirstBlock isReplay :
  emits beforeChecks (rollbackOrColdStart binder block isRollback isFirstBlock isReplay).
Proof.
  assert (emits beforeChecks (refreshIndexState binder)) as Hrefresh.
  { unfold refreshIndexState.
    apply emits_bind; [apply emits_call; exact I | intros loaded].
    repeat (apply emits_bind; [apply emits_update | intros _]).
    apply emits_update. }
  unfold rollbackOrColdStart.
  apply emits_bind; [apply emits_self | intros h].
  destruct (_ || _).
  - apply emits_bind; [apply emits_call; exact I | intros _; exact Hrefresh].
  - destruct (_ && _); [exact Hrefresh | apply emits_ret].
Qed.

(** Without a rollback, and with an index state already in memory, the first
    statement of [handleBlock] does nothing. *)
Lemma rollbackOrColdStart_idle block isFirstBlock isReplay (s : St) :
  isReplay && isFirstBlock = false ->
  lastProcessedBlockNumber (this s) <> 0 \/ lastProcessedBlockHash (this s) <> "" ->
  rollbackOrColdStart binder block false isFirstBlock isReplay s = (Normal tt, s).
Proof.
  intros Hflags Hwarm. unfold rollbackOrColdStart, bind, self. simpl.
  rewrite Hflags.
  destruct (Z.eqb_spec (lastProcessedBlockNumber (this s)) 0) as [Hz | Hz];
    [| reflexivity].
  destruct (String.eqb_spec (lastProcessedBlockHash (this s)) "") as [He | He];
    [| reflexivity].
  destruct Hwarm; contradiction.
Qed.

(** C5, amended.  The comparison with the last processed block is made after
    the first statement of [handleBlock] (the rollback, or the load of the
    index state on a cold start).  If the block has the number and the hash
    of the last processed block at that point, [handleBlock] returns
    [(false, 0)] and does nothing more: the final state is the state at that
    point, whose trace holds, beyond the calls made before, only
    [rollbackTo] and [loadIndexState] calls.  When moreover there is no
    rollback ([isRollback] false, not [isReplay] and [isFirstBlock]) and an
    index state is in memory, the whole call leaves the state unchanged. *)
Theorem handleBlock_skips_processed_block block isRollback isFirstBlock isReplay
    (s s1 : St) :
  rollbackOrColdStart binder block isRollback isFirstBlock isReplay s = (Normal tt, s1) ->
  blockNumber (blockInfo block) = lastProcessedBlockNumber (this s1) ->
  blockHash (blockInfo block) = lastProcessedBlockHash (this s1) ->
  handleBlock binder block isRollback isFirstBlock isReplay s = (Normal (false, 0), s1) /\
  (exists evs, trace s1 = trace s ++ evs /\ Forall beforeChecks evs) /\
  (isRollback = false ->
   isReplay && isFirstBlock = false ->
   lastProcessedBlockNumber (this s) <> 0 \/ lastProcessedBlockHash (this s) <> "" ->
   s1 = s).
Proof.
  intros Hfirst Hn Hh. split; [| split].
  - unfold handleBlock, bind. rewrite Hfirst.
    unfold checkAndApply, bind, self. simpl.
    rewrite <- Hn, <- Hh, Z.eqb_refl, String.eqb_refl. reflexivity.
  - destruct (rollbackOrColdStart_emits block isRollback isFirstBlock isReplay s)
      as [evs Hevs].
    rewrite Hfirst in Hevs. exists evs. exact Hevs.
  - intros -> Hflags Hwarm.
    rewrite (rollbackOrColdStart_idle block isFirstBlock isReplay s Hflags Hwarm)
      in Hfirst.
    inversion Hfirst. reflexivity.
Qed.

(** C6.  In a call of [handleBlock] with [isFirstBlock = false], let the
    first statement (rollback or cold start) have completed, and the block
    not be the last processed one.  If its number is not
    [lastProcessedBlockNumber + 1], the call returns
    [(true, lastProcessedBlockNumber + 1)]; if its number is that one but its
    [previousBlockHash] is not [lastProcessedBlockHash], the call throws the
    chain-mismatch error.  In both cases the final state is the state at the
    check: nothing of the block is applied.  Without a rollback and with an
    index state in memory, that state is the state before the call. *)
Theorem handleBlock_sequence_check block isRollback isReplay (s s1 : St) :
  rollbackOrColdStart binder block isRollback false isReplay s = (Normal tt, s1) ->
  ~ (blockNumber (blockInfo block) = lastProcessedBlockNumber (this s1) /\
     blockHash (blockInfo block) = lastProcessedBlockHash (this s1)) ->
  (blockNumber (blockInfo block) <> lastProcessedBlockNumber (this s1) + 1 ->
   handleBlock binder block isRollback false isReplay s =
     (Normal (true, lastProcessedBlockNumber (this s1) + 1), s1)) /\
  (blockNumber (blockInfo block) = lastProcessedBlockNumber (this s1) + 1 ->
   previousBlockHash (blockInfo block) <> lastProcessedBlockHash (this s1) ->
   handleBlock binder block isRollback false isReplay s =
     (Throw (JsError "Block hashes do not match; block not part of current chain."),
      s1)) /\
  (isRollback = false ->
   lastProcessedBlockNumber (this s) <> 0 \/ lastProcessedBlockHash (this s) <> "" ->
   s1 = s).
Proof.
  intros Hfirst Hnew.
  assert ((blockNumber (blockInfo block) =? lastProcessedBlockNumber (this s1))
          && String.eqb (blockHash (blockInfo block)) (lastProcessedBlockHash (this s1))
          = false) as Hskip.
  { destruct (Z.eqb_spec (blockNumber (blockInfo block))
                (lastProcessedBlockNumber (this s1))) as [Hn | Hn]; [| reflexivity].
    destruct (String.eqb_spec (blockHash (blockInfo block))
                (lastProcessedBlockHash (this s1))) as [Hh | Hh]; [| reflexivity].
    exfalso. apply Hnew. split; assumption. }
  split; [| split].
  - intros Hne. unfold handleBlock, bind. rewrite Hfirst.
    unfold checkAndApply, bind, self. simpl. rewrite Hskip. simpl.
    destruct (Z.eqb_spec (blockNumber (blockInfo block))
                (lastProcessedBlockNumber (this s1) + 1)) as [He | He];
      [contradiction | reflexivity].
  - intros Heq Hprev. unfold handleBlock, bind. rewrite Hfirst.
    unfold checkAndApply, bind, self. simpl. rewrite Hskip. simpl.
    rewrite Heq, Z.eqb_refl. simpl.
    destruct (String.eqb_spec (previousBlockHash (blockInfo block))
                (lastProcessedBlockHash (this s1))) as [He | He];
      [contradiction | reflexivity].
  - intros -> Hwarm.
    rewrite (rollbackOrColdStart_idle block false isReplay s) in Hfirst;
      [inversion Hfirst; reflexivity | apply andb_false_r | exact Hwarm].
Qed.

(** *** Version switches in [applyUpdaters] *)

Lemma updaterLoop_app state block isReplay context action name
    (pre rest : list (Updater Payload StateRef CtxRef World)) :
  forall updaterIndex updaterIndex' (s : St),
    updaterIndex' = updaterIndex + Z.of_nat (length pre) ->
    updaterLoop binder state block isReplay context action name (pre ++ rest)
      updaterIndex s =
    match updaterLoop binder state block isReplay context action name pre
            updaterIndex s with
    | (Normal false, s1) =>
        updaterLoop binder state block isReplay context action name rest
          updaterIndex' s1
    | other => other
    end.
Proof.
  induction pre as [| updater pre IH]; intros updaterIndex updaterIndex' s Hindex.
  - simpl in *. subst updaterIndex'. rewrite Z.add_0_r. reflexivity.
  - assert (updaterIndex' = updaterIndex + 1 + Z.of_nat (length pre)) as Hnext
      by (simpl length in Hindex; lia).
    simpl. destruct (String.eqb _ _); [| apply IH, Hnext].
    unfold bind, call, self.
    destruct (apply updater _ _ _ _ _) as [[newVersion | e] w]; [| reflexivity].
    simpl. destruct newVersion as [v |]; [| apply IH, Hnext].
    destruct (truthy v && negb _); [apply IH, Hnext |].
    destruct (truthy v); [| apply IH, Hnext].
    unfold updateIndexState, call. simpl.
    destruct (updateIndexState_impl _ _ _ _ _ _ _) as [[[] | e] w']; reflexivity.
Qed.

Lemma truthy_nonempty (v : string) : v <> "" -> truthy v = true.
Proof. destruct v; [contradiction | reflexivity]. Qed.

(** The updater at the head of the list switches the version. *)
Lemma updaterLoop_switch state block isReplay context action name
    (u : Updater Payload StateRef CtxRef World) post updaterIndex (s : St) v w2 w3 :
  type action = updaterActionType u ->
  apply u state (payload action) (blockInfo block) context (world s)
    = (Normal (Some v), w2) ->
  v <> "" ->
  is_Some (handlerVersionMap (this s) !! v) ->
  updateIndexState_impl binder state block isReplay v context w2 = (Normal tt, w3) ->
  updaterLoop binder state block isReplay context action name (u :: post)
    updaterIndex s =
    (Normal true,
     mkSt (set_handlerVersionName v (this s)) w3
       (trace s ++ [EvApply name (updaterIndex + 1) (type action);
                    EvUpdateIndexState (blockNumber (blockInfo block)) isReplay v])).
Proof.
  intros Htype Happly Hv Hkey Hupdate. simpl.
  rewrite <- Htype, String.eqb_refl.
  unfold bind, call, self. rewrite Happly. simpl.
  apply hasOwnProperty_true in Hkey. rewrite Hkey, (truthy_nonempty v Hv). simpl.
  unfold updateIndexState, call. simpl. rewrite Hupdate. simpl.
  unfold ret. do 2 f_equal. symmetry. apply (app_assoc _ [_] [_]).
Qed.

Lemma actionLoop_app state block isReplay context done rest :
  forall versionedActions (s : St),
    actionLoop binder state block isReplay context (done ++ rest) versionedActions s =
    match actionLoop binder state block isReplay context done versionedActions s with
    | (Normal before, s1) =>
        actionLoop binder state block isReplay context rest before s1
    | (Throw e, s1) => (Throw e, s1)
    end.
Proof.
  induction done as [| action done IH]; intros acc s; simpl; [reflexivity |].
  unfold bind.
  destruct (applyToAction _ _ _ _ _ _ s) as [[brk | e] s0]; [| reflexivity].
  simpl. apply IH.
Qed.

Lemma actionLoop_extends state block isReplay context todo :
  forall versionedActions (s s1 : St) result,
    actionLoop binder state block isReplay context todo versionedActions s
      = (Normal result, s1) ->
    exists more, result = versionedActions ++ more.
Proof.
  induction todo as [| action rest IH]; intros acc s s1 result H; simpl in H.
  - inversion H. exists []. rewrite app_nil_r. reflexivity.
  - unfold bind in H.
    destruct (applyToAction _ _ _ _ _ _ s) as [[brk | e] s0]; [| discriminate].
    simpl in H. apply IH in H. destruct H as [more ->].
    eexists. rewrite <- app_assoc. reflexivity.
Qed.

(** C7, amended.  When an updater that matches the action resolves to a
    non-empty version name that is a key of the version map (the updaters
    before it in the list, [pre], having been walked without a switch), the
    loop calls [updateIndexState] with the new name, sets
    [handlerVersionName] to it and ends: the updaters after it, [post], are
    not applied.  And in the sequence [applyUpdaters] returns, every action of
    the block is paired with the [handlerVersionName] found when the updaters
    of that action have run. *)
Theorem applyUpdaters_switch_and_pairing state block isReplay context action name
    (pre post : list (Updater Payload StateRef CtxRef World)) u updaterIndex
    (s s1 : St) v w2 w3 :
  updaterLoop binder state block isReplay context action name pre updaterIndex s
    = (Normal false, s1) ->
  type action = updaterActionType u ->
  apply u state (payload action) (blockInfo block) context (world s1)
    = (Normal (Some v), w2) ->
  v <> "" ->
  is_Some (handlerVersionMap (this s1) !! v) ->
  updateIndexState_impl binder state block isReplay v context w2 = (Normal tt, w3) ->
  updaterLoop binder state block isReplay context action name (pre ++ u :: post)
    updaterIndex s =
    (Normal true,
     mkSt (set_handlerVersionName v (this s1)) w3
       (trace s1 ++ [EvApply name (updaterIndex + Z.of_nat (length pre) + 1) (type action);
                     EvUpdateIndexState (blockNumber (blockInfo block)) isReplay v])) /\
  (forall (s0 s' : St) result,
     applyUpdaters binder state block isReplay context s0 = (Normal result, s') ->
     map fst result = actions block /\
     forall done a todo,
       actions block = done ++ a :: todo ->
       exists before sa brk sb,
         actionLoop binder state block isReplay context done [] s0
           = (Normal before, sa) /\
         applyToAction binder state block isReplay context a sa = (Normal brk, sb) /\
         result !! length done = Some (a, handlerVersionName (this sb))).
Proof.
  intros Hpre Htype Happly Hv Hkey Hupdate. split.
  - rewrite (updaterLoop_app _ _ _ _ _ _ pre (u :: post) updaterIndex
               (updaterIndex + Z.of_nat (length pre)) s eq_refl).
    rewrite Hpre.
    apply (updaterLoop_switch _ _ _ _ _ _ u post _ s1 v w2 w3); assumption.
  - intros s0 s' result Hrun. unfold applyUpdaters in Hrun. split.
    + apply actionLoop_fst in Hrun. exact Hrun.
    + intros done a todo Hsplit. rewrite Hsplit, actionLoop_app in Hrun.
      destruct (actionLoop _ _ _ _ _ done [] s0) as [[before | e] sa] eqn:Hdone;
        [| discriminate].
      simpl in Hrun. unfold bind at 1 in Hrun.
      destruct (applyToAction _ _ _ _ _ a sa) as [[brk | e] sb] eqn:Ha;
        [| discriminate].
      unfold bind at 1 in Hrun. unfold self at 1 in Hrun.
      apply actionLoop_extends in Hrun. destruct Hrun as [more ->].
      exists before, sa, brk, sb.
      split; [reflexivity | split; [exact Ha |]].
      apply actionLoop_fst in Hdone. simpl in Hdone.
      rewrite <- app_assoc. simpl. apply list_lookup_middle.
      rewrite <- Hdone, length_map. reflexivity.
Qed.

End WithBinder.

(** *** Runs on the sample store *)

Import Sample.

(** The handler and the store of the runs below are those reached from the
    constructor and an empty store by handling the blocks 1 to 5. *)
Lemma five_blocks_handled :
  exists h,
    constructor [v1; v2] = Normal h /\
    this (handleAll [b1; b2; b3; b4; b5] true (boot h (mkStore 0 [])))
      = handlerOf [v1; v2] 5 "h5" "v1" /\
    world (handleAll [b1; b2; b3; b4; b5] true (boot h (mkStore 0 []))) = storeAt5.
Proof. eexists. split; [reflexivity |]. vm_compute. split; reflexivity. Qed.

(** A handler that has processed block 5 is given block 5 again, with
    [isRollback = true]: it rolls back to block 4, calls [handleWithState]
    and applies the block a second time.  Given it with [isReplay] and
    [isFirstBlock], it rolls back to block 4 and returns [(true, 5)]. *)
Lemma handleBlock_rollback_reapplies_last_block :
  let s := boot (handlerOf [v1; v2] 5 "h5" "v1") storeAt5 in
  let block := withActions b5 [act "inc"] in
  blockNumber (blockInfo block) = lastProcessedBlockNumber (this s) /\
  blockHash (blockInfo block) = lastProcessedBlockHash (this s) /\
  fst (handleBlock storeBinder block true false false s) = Normal (false, 0) /\
  trace (final (handleBlock storeBinder block true false false) s) =
    [EvRollbackTo 4; EvLoadIndexState; EvHandleWithState; EvApply "v1" 0 "inc";
     EvRun "v1" 0 "inc"; EvUpdateIndexState 5 false "v1"] /\
  fst (handleBlock storeBinder block false true true s) = Normal (true, 5) /\
  trace (final (handleBlock storeBinder block false true true) s) =
    [EvRollbackTo 4; EvLoadIndexState].
Proof. vm_compute. repeat split; reflexivity. Qed.

Lemma handleBlock_skips_processed_block_witness :
  let s := boot (handlerOf [v1; v2] 5 "h5" "v1") storeAt5 in
  let block := withActions b5 [act "inc"] in
  handleBlock storeBinder block false false false s = (Normal (false, 0), s) /\
  (exists evs, trace s = trace s ++ evs /\ Forall beforeChecks evs) /\
  (false = false ->
   false && false = false ->
   lastProcessedBlockNumber (this s) <> 0 \/ lastProcessedBlockHash (this s) <> "" ->
   s = s).
Proof.
  apply (handleBlock_skips_processed_block storeBinder
           (withActions b5 [act "inc"]) false false false
           (boot (handlerOf [v1; v2] 5 "h5" "v1") storeAt5)
           (boot (handlerOf [v1; v2] 5 "h5" "v1") storeAt5));
    reflexivity.
Defined.

Lemma handleBlock_sequence_check_witness :
  let s := boot (handlerOf [v1; v2] 5 "h5" "v1") storeAt5 in
  let block := withActions b7 [act "inc"] in
  (blockNumber (blockInfo block) <> lastProcessedBlockNumber (this s) + 1 ->
   handleBlock storeBinder block false false false s =
     (Normal (true, lastProcessedBlockNumber (this s) + 1), s)) /\
  (blockNumber (blockInfo block) = lastProcessedBlockNumber (this s) + 1 ->
   previousBlockHash (blockInfo block) <> lastProcessedBlockHash (this s) ->
   handleBlock storeBinder block false false false s =
     (Throw (JsError "Block hashes do not match; block not part of current chain."),
      s)) /\
  (false = false ->
   lastProcessedBlockNumber (this s) <> 0 \/ lastProcessedBlockHash (this s) <> "" ->
   s = s).
Proof.
  apply (handleBlock_sequence_check storeBinder
           (withActions b7 [act "inc"]) false false
           (boot (handlerOf [v1; v2] 5 "h5" "v1") storeAt5)
           (boot (handlerOf [v1; v2] 5 "h5" "v1") storeAt5)).
  - reflexivity.
  - simpl. intros [Hn _]. lia.
Defined.

(** A handler built with the single version "v1" starts on a store whose
    index state was written under "v2": after [refreshIndexState], and after
    the [handleBlock] that calls it on this cold start, the active version
    name is "v2", which is no key of the version map; [applyUpdaters] then
    fails on the first action.  And a handler built from a list without "v1"
    whose first version is named "__proto__" starts under that name, which is
    no own key of its map. *)
Lemma refreshIndexState_adopts_unregistered_version :
  (exists h,
     constructor [v1] = Normal h /\
     versionRegistered h /\
     let s := boot h storeUnderV2 in
     let block := withActions b6 [act "inc"] in
     handlerVersionName (this (final (refreshIndexState storeBinder) s)) = "v2" /\
     ~ versionRegistered (this (final (refreshIndexState storeBinder) s)) /\
     fst (handleBlock storeBinder block false false false s) = Throw JsTypeError /\
     ~ versionRegistered
         (this (final (handleBlock storeBinder block false false false) s))) /\
  (exists h,
     constructor [protoA; v2] = Normal h /\
     handlerVersionName h = "__proto__" /\
     ~ versionRegistered h).
Proof.
  split.
  - eexists. split; [reflexivity |].
    split; [eexists; vm_compute; reflexivity |].
    unfold versionRegistered.
    repeat split; try (vm_compute; reflexivity);
      intros [hv Hhv]; vm_compute in Hhv; discriminate.
  - eexists. split; [reflexivity |]. split; [reflexivity |].
    unfold versionRegistered. intros [hv Hhv]. vm_compute in Hhv. discriminate.
Qed.

Lemma version_name_registered_witness :
  let s := boot (handlerOf [v1; v2] 5 "h5" "v1") storeAt5 in
  let block := withActions b5 [act "upgrade"] in
  versionRegistered (this s) /\
  versionRegistered (this (final (applyUpdaters storeBinder tt block false tt) s)) /\
  versionRegistered (this (final (refreshIndexState storeBinder) s)) /\
  versionRegistered (this (final (handleBlock storeBinder block true false false) s)).
Proof.
  assert (versionRegistered
            (this (boot (handlerOf [v1; v2] 5 "h5" "v1") storeAt5))) as H
    by (eexists; vm_compute; reflexivity).
  destruct (version_name_registered storeBinder
              (boot (handlerOf [v1; v2] 5 "h5" "v1") storeAt5) tt
              (withActions b5 [act "upgrade"]) true false false tt H)
    as [_ [Happly [_ [Hrefresh Hblock]]]].
  split; [exact H | split; [exact Happly | split]].
  - apply Hrefresh. intros loaded w Hl. vm_compute in Hl.
    inversion Hl; subst. eexists. vm_compute. reflexivity.
  - apply Hblock. intros w Hw. vm_compute in Hw. inversion Hw; subst.
    intros loaded w Hl. vm_compute in Hl.
    inversion Hl; subst. eexists. vm_compute. reflexivity.
Defined.

(** Block 6 with the actions "inc", "upgrade", "inc", handled live and under
    replay from the same state: the updater calls are the same (the version
    switches at the second action, whose last updater is skipped), and only
    the live run calls effects, each under the version paired with its
    action. *)
Lemma handleActions_live_and_replay_traces :
  let s := boot (handlerOf [v1; v2] 5 "h5" "v1") storeAt5 in
  let block := withActions b6 [act "inc"; act "upgrade"; act "inc"] in
  trace (final (handleActions storeBinder tt block tt true) s) =
    [EvApply "v1" 0 "inc";
     EvApply "v1" 1 "upgrade"; EvUpdateIndexState 6 true "v2";
     EvApply "v2" 0 "inc"; EvApply "v2" 1 "inc";
     EvUpdateIndexState 6 true "v2"] /\
  trace (final (handleActions storeBinder tt block tt false) s) =
    [EvApply "v1" 0 "inc";
     EvApply "v1" 1 "upgrade"; EvUpdateIndexState 6 false "v2";
     EvApply "v2" 0 "inc"; EvApply "v2" 1 "inc";
     EvRun "v1" 0 "inc"; EvRun "v2" 1 "upgrade"; EvRun "v2" 0 "inc";
     EvUpdateIndexState 6 false "v2"].
Proof. vm_compute. split; reflexivity. Qed.


(** The handler holds the versions "v1" and "" (the empty name).  The first
    updater of "v1" for "upgrade" resolves to the empty string, a key of the
    version map: [updateIndexState] is not called, the name stays "v1", and
    the second updater for "upgrade" is applied. *)
Lemma applyUpdaters_ignores_empty_version_name :
  exists h,
    constructor [v1quiet; unnamed] = Normal h /\
    is_Some (handlerVersionMap h !! "") /\
    apply (switchTo "upgrade" "") tt tt (blockInfo b6) tt storeAt5
      = (Normal (Some ""), mkStore 6 (written storeAt5)) /\
    let s := boot h storeAt5 in
    let block := withActions b6 [act "upgrade"] in
    fst (applyUpdaters storeBinder tt block false tt s)
      = Normal [(act "upgrade", "v1")] /\
    handlerVersionName (this (final (applyUpdaters storeBinder tt block false tt) s))
      = "v1" /\
    trace (final (applyUpdaters storeBinder tt block false tt) s)
      = [EvApply "v1" 0 "upgrade"; EvApply "v1" 1 "upgrade"].
Proof.
  eexists. split; [reflexivity |].
  split; [eexists; vm_compute; reflexivity |].
  vm_compute. repeat split; reflexivity.
Qed.

Lemma applyUpdaters_switch_and_pairing_witness :
  let s := boot (handlerOf [v1; v2] 5 "h5" "v1") storeAt5 in
  let block := withActions b6 [act "upgrade"] in
  updaterLoop storeBinder tt block false tt (act "upgrade") "v1"
    ([inc "inc"] ++ switchTo "upgrade" "v2" :: [inc "upgrade"]) (-1) s =
    (Normal true,
     mkSt (set_handlerVersionName "v2" (this s))
       (mkStore 6 (idx 6 "h6" "v2" 6 :: written storeAt5))
       [EvApply "v1" 1 "upgrade"; EvUpdateIndexState 6 false "v2"]).
Proof.
  refine (proj1 (applyUpdaters_switch_and_pairing storeBinder tt
                   (withActions b6 [act "upgrade"]) false tt (act "upgrade") "v1"
                   [inc "inc"] [inc "upgrade"] (switchTo "upgrade" "v2") (-1)
                   (boot (handlerOf [v1; v2] 5 "h5" "v1") storeAt5)
                   (boot (handlerOf [v1; v2] 5 "h5" "v1") storeAt5)
                   "v2" (mkStore 6 (written storeAt5))
                   (mkStore 6 (idx 6 "h6" "v2" 6 :: written storeAt5))
                   _ _ _ _ _ _)).
  - reflexivity.
  - reflexivity.
  - reflexivity.
  - discriminate.
  - eexists. vm_compute. reflexivity.
  - reflexivity.
Defined.

End HandlerFacts.

(** ** More on the reader *)

Module ReaderMore.

Import Reader ReaderFacts.

Section WithChain.

Context {Payload Chain : Type} (source : ChainSource Payload Chain).

Local Abbreviation Reader := (Reader Payload).
Local Abbreviation St := (St Payload Chain).

(** *** Polling at the head *)

(** X1.  A reader that stands on the head block (or has no cached head) asks
    for the head once; when the chain has nothing beyond the reader's block,
    [nextBlock] returns the current block again, with [isRollback] and
    [isNewBlock] both false, and has only emptied the prefetch buffer. *)
Theorem nextBlock_idle_at_head (s : St) (h : Z) (c : Chain) (b : Block Payload) :
  currentBlockNumber (this s) = headBlockNumber (this s)
    \/ headBlockNumber (this s) = 0 ->
  0 <= currentBlockNumber (this s) \/ blockHistory (this s) <> [] ->
  getHeadBlockNumber_impl source (chain s) = (Normal h, c) ->
  h <= currentBlockNumber (this s) ->
  currentBlockData (this s) = Some b ->
  nextBlock source s =
    (Normal (b, false, false),
     mkSt (set_isFirstBlock (currentBlockNumber (this s) =? startAtBlock (this s))
             (set_index 0%nat (set_tmpBlocks [] (set_headBlockNumber h (this s)))))
          c (calls s ++ [CallGetHeadBlockNumber])).
Proof.
  intros Hat Hpos Hhead Hle Hcur.
  assert ((currentBlockNumber (this s) =? headBlockNumber (this s))
          || (headBlockNumber (this s) =? 0) = true) as Hrefresh.
  { apply orb_true_iff. destruct Hat as [-> | ->];
      [left | right]; apply Z.eqb_refl. }
  assert ((currentBlockNumber (this s) <? 0)
          && (length (blockHistory (this s)) =? 0)%nat = false) as Hwrap.
  { apply andb_false_iff. destruct Hpos as [Hp | Hp].
    - left. apply Z.ltb_ge, Hp.
    - right. apply Nat.eqb_neq. destruct (blockHistory (this s)); [contradiction | discriminate]. }
  unfold nextBlock, refreshHead, bind, self. simpl. rewrite Hrefresh.
  unfold when, bind, getHeadBlockNumber. rewrite Hhead.
  unfold update, modify. simpl.
  unfold resolveTail. simpl. rewrite Hwrap.
  unfold advance, bind, self. simpl.
  destruct (Z.ltb_spec (currentBlockNumber (this s)) h) as [Hlt | _]; [lia |].
  simpl. rewrite Hcur. reflexivity.
Qed.

(** *** What [nextBlock] returns *)

Lemma advance_flags (s s1 : St) (isRollback isNewBlock : bool) :
  advance source s = (Normal (isRollback, isNewBlock), s1) ->
  (isRollback = true -> isNewBlock = true) /\
  (isRollback = false -> isNewBlock = true ->
   exists u, currentBlockData (this s1) = Some u /\
             currentBlockNumber (this s1) = blockNumber (blockInfo u)).
Proof.
  unfold advance, bind, self. simpl.
  destruct (currentBlockNumber (this s) <? headBlockNumber (this s)).
  - destruct (when _ _ s) as [[[] | e] s0]; [| discriminate].
    unfold update, modify, ret. simpl.
    destruct (tmpBlocks (this s0) !! index (this s0)) as [u |]; [| discriminate].
    destruct (_ || _).
    + intros H. inversion H; subst. split; [discriminate |].
      intros _ _. exists u. split; reflexivity.
    + destruct (resolveFork source _) as [[[] | e] s2]; [| discriminate].
      destruct (getHeadBlockNumber source s2) as [[h | e] s3]; [| discriminate].
      intros H. inversion H; subst.
      split; [reflexivity | discriminate].
  - unfold ret. intros H. inversion H; subst. split; discriminate.
Qed.

(** X2.  When [nextBlock] returns, the block it returns is the reader's
    current block and [isFirstBlock] tells whether the reader stands on
    [startAtBlock]; a rollback is always reported as a new block; and a new
    block that is no rollback is the block [currentBlockNumber] now names. *)
Theorem nextBlock_return_shape (s s' : St) (b : Block Payload)
    (isRollback isNewBlock : bool) :
  nextBlock source s = (Normal (b, isRollback, isNewBlock), s') ->
  currentBlockData (this s') = Some b /\
  isFirstBlock (this s') = (currentBlockNumber (this s') =? startAtBlock (this s')) /\
  (isRollback = true -> isNewBlock = true) /\
  (isRollback = false -> isNewBlock = true ->
   currentBlockNumber (this s') = blockNumber (blockInfo b)).
Proof.
  unfold nextBlock, bind.
  destruct (refreshHead source s) as [[[] | e] s0]; [| discriminate].
  destruct (update resolveTail s0) as [[[] | e] s1] eqn:Htail; [| discriminate].
  destruct (advance source s1) as [[[rb nb] | e] s2] eqn:Hadv; [| discriminate].
  apply advance_flags in Hadv. destruct Hadv as [Hroll Hnew].
  unfold update, modify, self. simpl.
  destruct (currentBlockData (this s2)) as [cur |] eqn:Hcur; [| discriminate].
  unfold ret. intros H. inversion H; subst. simpl. rewrite ?Hcur in *.
  repeat split; try assumption.
  intros Hr Hn. destruct (Hnew Hr Hn) as [u [Hu Hnum]].
  congruence.
Qed.

(** X3.  When the reader is behind the head, keeps its cached head and its
    prefetch buffer is not empty but [index] is past its end, [nextBlock]
    throws a type error (the read of [blockInfo] on [undefined]), having only
    incremented [index]; it does not refill the buffer. *)
Theorem nextBlock_buffer_exhausted (s : St) :
  currentBlockNumber (this s) < headBlockNumber (this s) ->
  headBlockNumber (this s) <> 0 ->
  0 <= currentBlockNumber (this s) \/ blockHistory (this s) <> [] ->
  tmpBlocks (this s) <> [] ->
  (length (tmpBlocks (this s)) <= index (this s))%nat ->
  nextBlock source s =
    (Throw JsTypeError,
     mkSt (set_index (S (index (this s))) (this s)) (chain s) (calls s)).
Proof.
  intros Hbehind Hhead Hpos Hbuffer Hpast.
  assert ((currentBlockNumber (this s) =? headBlockNumber (this s))
          || (headBlockNumber (this s) =? 0) = false) as Hrefresh.
  { apply orb_false_iff. split; apply Z.eqb_neq; lia. }
  assert ((currentBlockNumber (this s) <? 0)
          && (length (blockHistory (this s)) =? 0)%nat = false) as Hwrap.
  { apply andb_false_iff. destruct Hpos as [Hp | Hp].
    - left. apply Z.ltb_ge, Hp.
    - right. apply Nat.eqb_neq. destruct (blockHistory (this s)); [contradiction | discriminate]. }
  assert ((length (tmpBlocks (this s)) =? 0)%nat = false) as Hfull.
  { apply Nat.eqb_neq. destruct (tmpBlocks (this s)); [contradiction | discriminate]. }
  unfold nextBlock, refreshHead, bind, self. simpl. rewrite Hrefresh. simpl.
  unfold resolveTail. rewrite Hwrap.
  unfold advance, bind, self. simpl.
  destruct (Z.ltb_spec (currentBlockNumber (this s)) (headBlockNumber (this s)))
    as [_ | Hge]; [| lia].
  rewrite Hfull. simpl.
  rewrite (lookup_ge_None_2 (tmpBlocks (this s)) (index (this s)) Hpast).
  destruct s as [r c l]. destruct r. reflexivity.
Qed.

(** *** Where [seekToBlock] leaves the reader *)

(** X4.  When [seekToBlock] returns, [currentBlockNumber] is one less than
    the block sought, the cached head is forgotten, and [startAtBlock] and
    [maxHistoryLength] are unchanged; seeking to block 1 leaves the reader
    without history and without current block, seeking to any other block
    leaves it with a current block. *)
Theorem seekToBlock_lands_before_target (s s' : St) (blockNumber' : Z) :
  seekToBlock source blockNumber' s = (Normal tt, s') ->
  currentBlockNumber (this s') = blockNumber' - 1 /\
  headBlockNumber (this s') = 0 /\
  startAtBlock (this s') = startAtBlock (this s) /\
  maxHistoryLength (this s') = maxHistoryLength (this s) /\
  (blockNumber' = 1 ->
   blockHistory (this s') = [] /\ currentBlockData (this s') = None) /\
  (blockNumber' <> 1 -> currentBlockData (this s') <> None).
Proof.
  assert (forall (r : Reader) (c : Chain) (l : list Call) (b : Block Payload),
            blockNumber' <> 1 ->
            currentBlockNumber r = blockNumber' - 1 ->
            headBlockNumber r = 0 ->
            startAtBlock r = startAtBlock (this s) ->
            maxHistoryLength r = maxHistoryLength (this s) ->
            currentBlockData r = Some b ->
            (Normal tt, mkSt r c l) = (Normal tt, s') ->
            currentBlockNumber (this s') = blockNumber' - 1 /\
            headBlockNumber (this s') = 0 /\
            startAtBlock (this s') = startAtBlock (this s) /\
            maxHistoryLength (this s') = maxHistoryLength (this s) /\
            (blockNumber' = 1 ->
             blockHistory (this s') = [] /\ currentBlockData (this s') = None) /\
            (blockNumber' <> 1 -> currentBlockData (this s') <> None)) as Hdone.
  { intros r c l b Hne H1 H2 H3 H4 H5 H. inversion H; subst s'. simpl.
    split; [exact H1 |]. split; [exact H2 |]. split; [exact H3 |].
    split; [exact H4 |]. split; [intros Hc; contradiction |].
    intros _. rewrite H5. discriminate. }
  unfold seekToBlock, bind, update, modify, self, when, ret. simpl.
  destruct (blockNumber' <? startAtBlock (this s)); [discriminate |].
  destruct (Z.eqb_spec blockNumber' 1) as [-> | Hne].
  - intros H. inversion H; subst. simpl.
    split; [reflexivity |]. split; [reflexivity |]. split; [reflexivity |].
    split; [reflexivity |]. split; [intros _; split; reflexivity |].
    intros Hc. contradiction.
  - destruct (0 <=? _); simpl.
    + destruct (last (take _ _)) as [b |] eqn:Hlast.
      * apply (Hdone _ _ _ b Hne); reflexivity.
      * unfold getBlock. simpl.
        destruct (getBlock_impl source (blockNumber' - 1) (chain s)) as [[b | e] c];
          [| discriminate].
        apply (Hdone _ _ _ b Hne); reflexivity.
    + unfold getBlock. simpl.
      destruct (getBlock_impl source (blockNumber' - 1) (chain s)) as [[b | e] c];
        [| discriminate].
      apply (Hdone _ _ _ b Hne); reflexivity.
Qed.

Lemma scanHistory_hit (blockNumber' : Z) (b : Block Payload)
    (older : list (Block Payload)) (toDelete : Z) :
  blockNumber (blockInfo b) = blockNumber' ->
  scanHistory blockNumber' (b :: older) toDelete = toDelete.
Proof. intros H. simpl. rewrite H, Z.eqb_refl. reflexivity. Qed.

(** X5.  When the history is empty, or its newest entry is the block sought,
    [seekToBlock] leaves the history as it is and fetches the block before
    the one sought with a single [getBlock] call, which becomes the current
    block. *)
Theorem seekToBlock_refetches (s : St) (blockNumber' : Z) (fetched : Block Payload)
    (c : Chain) :
  startAtBlock (this s) <= blockNumber' ->
  blockNumber' <> 1 ->
  blockHistory (this s) = []
    \/ (exists newest, last (blockHistory (this s)) = Some newest /\
                       blockNumber (blockInfo newest) = blockNumber') ->
  getBlock_impl source (blockNumber' - 1) (chain s) = (Normal fetched, c) ->
  seekToBlock source blockNumber' s =
    (Normal tt,
     mkSt (set_currentBlockData (Some fetched)
             (set_currentBlockNumber (blockNumber' - 1)
                (set_headBlockNumber 0 (this s))))
          c (calls s ++ [CallGetBlock (blockNumber' - 1)])).
Proof.
  intros Hstart Hone Hhist Hget.
  assert (scanHistory blockNumber' (rev (blockHistory (this s))) (-1) = -1) as Hscan.
  { destruct Hhist as [-> | [newest [Hlast Hnum]]]; [reflexivity |].
    apply last_Some in Hlast. destruct Hlast as [l' ->].
    rewrite rev_app_distr. simpl. apply scanHistory_hit, Hnum. }
  unfold seekToBlock, bind, update, modify, self, when, ret. simpl.
  destruct (Z.ltb_spec blockNumber' (startAtBlock (this s))) as [Hlt | _]; [lia |].
  destruct (Z.eqb_spec blockNumber' 1) as [He | _]; [contradiction |].
  rewrite Hscan. simpl. unfold getBlock. simpl. rewrite Hget. reflexivity.
Qed.

(** *** The calls of the reader only accumulate *)

Lemma calls_update (calls0 : list Call) (f : Reader -> Reader) :
  preserves (fun s : St => calls0 `prefix_of` calls s) (update f).
Proof. intros s H. exact H. Qed.

Lemma calls_self (calls0 : list Call) :
  preserves (fun s : St => calls0 `prefix_of` calls s) self.
Proof. intros s H. exact H. Qed.

Lemma calls_getBlock (calls0 : list Call) n :
  preserves (fun s : St => calls0 `prefix_of` calls s) (getBlock source n).
Proof.
  intros s H. unfold getBlock.
  destruct (getBlock_impl source n (chain s)). simpl.
  apply prefix_app_r, H.
Qed.

Lemma calls_getHeadBlockNumber (calls0 : list Call) :
  preserves (fun s : St => calls0 `prefix_of` calls s) (getHeadBlockNumber source).
Proof.
  intros s H. unfold getHeadBlockNumber.
  destruct (getHeadBlockNumber_impl source (chain s)). simpl.
  apply prefix_app_r, H.
Qed.

Lemma calls_promiseAll (calls0 : list Call) ns :
  preserves (fun s : St => calls0 `prefix_of` calls s) (promiseAll source ns).
Proof.
  intros s H. unfold promiseAll, bind.
  destruct (issueAll_calls source ns s) as [Hc _].
  destruct (issueAll source ns s) as [[rs | e] s1]; simpl in *;
    rewrite Hc; apply prefix_app_r, H.
Qed.

Lemma calls_resolveForkLoop (calls0 : list Call) fuel :
  preserves (fun s : St => calls0 `prefix_of` calls s) (resolveForkLoop source fuel).
Proof.
  induction fuel as [| fuel IH]; simpl.
  - apply preserves_throw.
  - unfold resolveForkTurn.
    apply preserves_bind; [apply calls_self | intros r].
    destruct (last (blockHistory r)) as [previousBlockData |];
      [| apply preserves_ret].
    destruct (currentBlockData r) as [cur |]; [| apply preserves_throw].
    apply preserves_bind; [apply calls_getBlock | intros b].
    apply preserves_bind; [apply calls_update | intros _].
    apply preserves_bind; [apply calls_self | intros r1].
    assert (preserves (fun s : St => calls0 `prefix_of` calls s)
              (update (set_currentBlockData (Some previousBlockData)) ;;
               update (fun r => set_blockHistory (snd (pop (blockHistory r))) r) ;;
               resolveForkLoop source fuel)) as Hcontinue.
    { apply preserves_bind; [apply calls_update | intros _].
      apply preserves_bind; [apply calls_update | intros _; exact IH]. }
    destruct (currentBlockData r1) as [c |]; [| exact Hcontinue].
    destruct (String.eqb _ _); [apply preserves_ret | exact Hcontinue].
Qed.

Lemma calls_resolveFork (calls0 : list Call) :
  preserves (fun s : St => calls0 `prefix_of` calls s) (resolveFork source).
Proof.
  unfold resolveFork.
  apply preserves_bind; [apply calls_self | intros r].
  destruct (currentBlockData r); [| apply preserves_throw].
  apply preserves_bind; [apply calls_resolveForkLoop | intros _].
  apply preserves_bind; [apply calls_self | intros r1].
  apply preserves_bind; [apply preserves_when, preserves_throw | intros _].
  apply preserves_bind; [apply calls_self | intros r2].
  destruct (last (blockHistory r2)); [apply calls_update | apply preserves_throw].
Qed.

Lemma calls_advance (calls0 : list Call) :
  preserves (fun s : St => calls0 `prefix_of` calls s) (advance source).
Proof.
  unfold advance.
  apply preserves_bind; [apply calls_self | intros r].
  destruct (currentBlockNumber r <? headBlockNumber r); [| apply preserves_ret].
  apply preserves_bind.
  { apply preserves_when. unfold prefetch.
    apply preserves_bind; [apply calls_update | intros _].
    apply preserves_bind; [apply calls_self | intros r0].
    apply preserves_bind; [apply calls_promiseAll | intros result].
    apply calls_update. }
  intros _.
  apply preserves_bind; [apply calls_self | intros r1].
  apply preserves_bind; [apply calls_update | intros _].
  destruct (tmpBlocks r1 !! index r1) as [u |]; [| apply preserves_throw].
  destruct (_ || _).
  - apply preserves_bind; [apply calls_update | intros _; apply preserves_ret].
  - apply preserves_bind; [apply calls_resolveFork | intros _].
    apply preserves_bind; [apply calls_getHeadBlockNumber | intros h].
    apply preserves_bind; [apply calls_update | intros _; apply preserves_ret].
Qed.

Lemma seekToBlock_forgets_head (s : St) (blockNumber' : Z) :
  headBlockNumber (this (final (seekToBlock source blockNumber') s)) = 0.
Proof.
  unfold final, seekToBlock, bind, update, modify, self, when, ret, throw. simpl.
  destruct (blockNumber' <? startAtBlock (this s)); [reflexivity |].
  destruct (blockNumber' =? 1); [reflexivity |].
  destruct (0 <=? _); simpl.
  - destruct (last (take _ _)); [reflexivity |].
    unfold getBlock. simpl.
    destruct (getBlock_impl source _ (chain s)) as [[b | e] c]; reflexivity.
  - unfold getBlock. simpl.
    destruct (getBlock_impl source _ (chain s)) as [[b | e] c]; reflexivity.
Qed.

(** X6.  Whatever way [seekToBlock] completes, the next [nextBlock] begins by
    asking the chain for its head: the first call it adds to those made so
    far is [getHeadBlockNumber]. *)
Theorem nextBlock_after_seek_asks_head (s : St) (blockNumber' : Z) :
  let sought := final (seekToBlock source blockNumber') s in
  (calls sought ++ [CallGetHeadBlockNumber])
    `prefix_of` calls (final (nextBlock source) sought).
Proof.
  intros sought.
  pose proof (seekToBlock_forgets_head s blockNumber') as Hzero.
  fold sought in Hzero.
  unfold final, nextBlock. unfold bind at 1.
  assert (exists r s0, refreshHead source sought = (r, s0) /\
                       calls s0 = calls sought ++ [CallGetHeadBlockNumber])
    as [r [s0 [Hrefresh Hcalls]]].
  { unfold refreshHead, bind, self. simpl. rewrite Hzero, Z.eqb_refl, orb_true_r.
    unfold when, bind, getHeadBlockNumber.
    destruct (getHeadBlockNumber_impl source (chain sought)) as [[h | e] c];
      eexists; eexists; split; reflexivity. }
  rewrite Hrefresh. destruct r as [[] | e]; simpl; [| rewrite Hcalls; reflexivity].
  assert (preserves
            (fun s : St => (calls sought ++ [CallGetHeadBlockNumber]) `prefix_of` calls s)
            (update resolveTail ;;
             flags <- advance source ;;
             update (fun r => set_isFirstBlock (currentBlockNumber r =? startAtBlock r) r) ;;
             r <- self ;;
             match currentBlockData r with
             | None => throw (JsError "currentBlockData must not be null.")
             | Some b => ret (b, fst flags, snd flags)
             end)) as Hrest.
  { apply preserves_bind; [apply calls_update | intros _].
    apply preserves_bind; [apply calls_advance | intros flags].
    apply preserves_bind; [apply calls_update | intros _].
    apply preserves_bind; [apply calls_self | intros r0].
    destruct (currentBlockData r0); [apply preserves_ret | apply preserves_throw]. }
  apply Hrest. rewrite Hcalls. reflexivity.
Qed.

(** *** Fork resolution *)

Lemma removelast_prefix {A} (l : list A) : removelast l `prefix_of` l.
Proof. rewrite removelast_firstn_len. apply prefix_take. Qed.

Lemma resolveForkLoop_pops (h0 : list (Block Payload)) (start0 max0 : Z) fuel :
  preserves
    (onThis (fun r => blockHistory r `prefix_of` h0 /\
                      startAtBlock r = start0 /\ maxHistoryLength r = max0))
    (resolveForkLoop source fuel).
Proof.
  induction fuel as [| fuel IH]; simpl.
  - apply preserves_throw.
  - unfold resolveForkTurn.
    apply preserves_bind; [apply preserves_self | intros r].
    destruct (last (blockHistory r)) as [previousBlockData |];
      [| apply preserves_ret].
    destruct (currentBlockData r) as [cur |]; [| apply preserves_throw].
    apply preserves_bind; [apply preserves_getBlock | intros b].
    apply preserves_bind; [apply preserves_update; intros r0 H0; exact H0 |].
    intros _. apply preserves_bind; [apply preserves_self | intros r1].
    assert (preserves
              (onThis (fun r => blockHistory r `prefix_of` h0 /\
                                startAtBlock r = start0 /\ maxHistoryLength r = max0))
              (update (set_currentBlockData (Some previousBlockData)) ;;
               update (fun r => set_blockHistory (snd (pop (blockHistory r))) r) ;;
               resolveForkLoop source fuel)) as Hcontinue.
    { apply preserves_bind; [apply preserves_update; intros r0 H0; exact H0 |].
      intros _. apply preserves_bind; [| intros _; exact IH].
      apply preserves_update. intros r0 [Hp Hrest]. split; [| exact Hrest].
      simpl. etrans; [apply removelast_prefix | exact Hp]. }
    destruct (currentBlockData r1) as [c |]; [| exact Hcontinue].
    destruct (String.eqb _ _); [apply preserves_ret | exact Hcontinue].
Qed.

Lemma resolveForkLoop_keeps_current fuel :
  preserves (onThis (fun r : Reader => currentBlockData r <> None))
    (resolveForkLoop source fuel).
Proof.
  induction fuel as [| fuel IH]; simpl.
  - apply preserves_throw.
  - unfold resolveForkTurn.
    apply preserves_bind; [apply preserves_self | intros r].
    destruct (last (blockHistory r)) as [previousBlockData |];
      [| apply preserves_ret].
    destruct (currentBlockData r) as [cur |]; [| apply preserves_throw].
    apply preserves_bind; [apply preserves_getBlock | intros b].
    apply preserves_bind; [apply preserves_update; intros r0 H0; discriminate |].
    intros _. apply preserves_bind; [apply preserves_self | intros r1].
    assert (preserves (onThis (fun r : Reader => currentBlockData r <> None))
              (update (set_currentBlockData (Some previousBlockData)) ;;
               update (fun r => set_blockHistory (snd (pop (blockHistory r))) r) ;;
               resolveForkLoop source fuel)) as Hcontinue.
    { apply preserves_bind; [apply preserves_update; intros r0 H0; discriminate |].
      intros _. apply preserves_bind; [| intros _; exact IH].
      apply preserves_update. intros r0 H0. exact H0. }
    destruct (currentBlockData r1) as [c |]; [| exact Hcontinue].
    destruct (String.eqb _ _); [apply preserves_ret | exact Hcontinue].
Qed.

(** X7.  [resolveFork] only takes entries off the newest end of the history:
    the history it leaves, however it completes, is a prefix of the history
    it found, and [startAtBlock] and [maxHistoryLength] are untouched.  When
    it returns, the history is not empty, the reader has a current block, and
    [currentBlockNumber] is one more than the number of the newest entry
    left. *)
Theorem resolveFork_only_pops (s : St) :
  blockHistory (this (final (resolveFork source) s)) `prefix_of` blockHistory (this s) /\
  startAtBlock (this (final (resolveFork source) s)) = startAtBlock (this s) /\
  maxHistoryLength (this (final (resolveFork source) s)) = maxHistoryLength (this s) /\
  (forall s', resolveFork source s = (Normal tt, s') ->
     exists newest,
       last (blockHistory (this s')) = Some newest /\
       currentBlockNumber (this s') = blockNumber (blockInfo newest) + 1 /\
       currentBlockData (this s') <> None).
Proof.
  assert (preserves
            (onThis (fun r => blockHistory r `prefix_of` blockHistory (this s) /\
                              startAtBlock r = startAtBlock (this s) /\
                              maxHistoryLength r = maxHistoryLength (this s)))
            (resolveFork source)) as Hpops.
  { unfold resolveFork.
    apply preserves_bind; [apply preserves_self | intros r].
    destruct (currentBlockData r); [| apply preserves_throw].
    apply preserves_bind; [apply resolveForkLoop_pops | intros _].
    apply preserves_bind; [apply preserves_self | intros r1].
    apply preserves_bind; [apply preserves_when, preserves_throw | intros _].
    apply preserves_bind; [apply preserves_self | intros r2].
    destruct (last (blockHistory r2)); [| apply preserves_throw].
    apply preserves_update. intros r0 H0. exact H0. }
  destruct (Hpops s) as [Hp [Hs Hm]]; [repeat split; reflexivity |].
  split; [exact Hp |]. split; [exact Hs |]. split; [exact Hm |].
  intros s'. unfold resolveFork, bind, self. cbv beta iota.
  destruct (currentBlockData (this s)) as [cur |] eqn:Hcur; [| discriminate].
  pose proof (resolveForkLoop_keeps_current (S (length (blockHistory (this s)))) s)
    as Hkeep.
  destruct (resolveForkLoop source (S (length (blockHistory (this s)))) s)
    as [[[] | e] s1]; [| discriminate].
  simpl in Hkeep. unfold onThis in Hkeep.
  unfold when, historyExhausted, throw, ret.
  destruct (length (blockHistory (this s1)) =? 0)%nat; [discriminate |].
  simpl. destruct (last (blockHistory (this s1))) as [newest |] eqn:Hlast;
    [| discriminate].
  unfold update, modify. intros H. inversion H; subst. simpl.
  exists newest. split; [exact Hlast |]. split; [reflexivity |].
  apply Hkeep. rewrite Hcur. discriminate.
Qed.

(** X8.  With a current block but an empty history, [resolveFork] throws the
    history-exhausted error at once: it calls nothing and changes nothing. *)
Theorem resolveFork_history_exhausted (s : St) (b : Block Payload) :
  currentBlockData (this s) = Some b ->
  blockHistory (this s) = [] ->
  resolveFork source s =
    (Throw (JsError "Fork resolution history has been exhausted, and no history exhaustion handling has been implemented."),
     s).
Proof.
  intros Hcur Hempty.
  unfold resolveFork, bind, self. cbv beta iota. rewrite Hcur, Hempty.
  cbn [length resolveForkLoop].
  unfold resolveForkTurn, bind, self. cbv beta iota. rewrite Hempty, last_nil.
  unfold ret. cbv beta iota. rewrite Hempty. reflexivity.
Qed.

(** X9.  When the block fetched again under the current block's number links
    to the newest entry of the history, [resolveFork] returns after that one
    [getBlock] call: the fetched block is the current block, the history is
    untouched, and [currentBlockNumber] is one more than the number of the
    newest entry. *)
Theorem resolveFork_relinks_at_once (s : St) (current previous fetched : Block Payload)
    (c : Chain) :
  currentBlockData (this s) = Some current ->
  last (blockHistory (this s)) = Some previous ->
  getBlock_impl source (blockNumber (blockInfo current)) (chain s) = (Normal fetched, c) ->
  previousBlockHash (blockInfo fetched) = blockHash (blockInfo previous) ->
  resolveFork source s =
    (Normal tt,
     mkSt (set_currentBlockNumber (blockNumber (blockInfo previous) + 1)
             (set_currentBlockData (Some fetched) (this s)))
          c (calls s ++ [CallGetBlock (blockNumber (blockInfo current))])).
Proof.
  intros Hcur Hlast Hget Hlink.
  assert ((length (blockHistory (this s)) =? 0)%nat = false) as Hlen.
  { apply Nat.eqb_neq. destruct (blockHistory (this s)); [discriminate | discriminate]. }
  unfold resolveFork, bind, self. simpl. rewrite Hcur. simpl.
  unfold resolveForkTurn, bind, self. simpl. rewrite Hlast, Hcur.
  unfold getBlock. rewrite Hget.
  unfold update, modify. simpl. rewrite Hlink, String.eqb_refl. simpl.
  rewrite Hlen. simpl. rewrite Hlast. reflexivity.
Qed.

(** *** The prefetch buffer and the history *)

Lemma countFrom_length (lo : Z) (n : nat) : length (countFrom lo n) = n.
Proof.
  revert lo. induction n as [| n IH]; intros lo; simpl; [reflexivity |].
  rewrite IH. reflexivity.
Qed.

Lemma issueAll_length (ns : list Z) :
  forall (s s1 : St) rs,
    issueAll source ns s = (Normal rs, s1) -> length rs = length ns.
Proof.
  induction ns as [| n ns IH]; intros s s1 rs H; cbn [issueAll] in H.
  - inversion H. reflexivity.
  - destruct (getBlock source n s) as [r s0].
    destruct (issueAll source ns s0) as [[l | e] s2] eqn:Hrest; [| discriminate].
    inversion H; subst. simpl. f_equal. apply (IH _ _ _ Hrest).
Qed.

Lemma awaitAll_length (rs : list (completion (Block Payload))) :
  forall bs, awaitAll rs = Normal bs -> length bs = length rs.
Proof.
  induction rs as [| [b | e] rs IH]; intros bs H; simpl in H.
  - inversion H. reflexivity.
  - destruct (awaitAll rs) as [l | e]; [| discriminate].
    inversion H; subst. simpl. f_equal. apply IH. reflexivity.
  - discriminate.
Qed.

(** X10.  When the refill of the prefetch buffer returns, the buffer holds as
    many blocks as the head number (none for a head of 0 or less),
    [currentBlockNumber] is 0, and [index] and the history are as before. *)
Theorem prefetch_fills_buffer (s s' : St) :
  prefetch source s = (Normal tt, s') ->
  length (tmpBlocks (this s')) = Z.to_nat (headBlockNumber (this s)) /\
  currentBlockNumber (this s') = 0 /\
  index (this s') = index (this s) /\
  blockHistory (this s') = blockHistory (this s).
Proof.
  unfold prefetch, promiseAll, bind, update, modify, self. simpl.
  match goal with
  | |- context [issueAll source ?ns ?s1] =>
      pose proof (issueAll_length ns s1) as Hlen;
      destruct (issueAll_calls source ns s1) as [_ Hthis];
      destruct (issueAll source ns s1) as [[rs | e] s2]
  end; [| discriminate].
  simpl in Hthis.
  destruct (awaitAll rs) as [bs |] eqn:Hawait; [| discriminate].
  intros H. inversion H; subst. simpl. rewrite Hthis. simpl.
  split; [| repeat split; reflexivity].
  rewrite (awaitAll_length rs bs Hawait), (Hlen _ _ eq_refl).
  apply countFrom_length.
Qed.

(** X11.  Taking a block as the new current block pushes the old current
    block, if any, on the history and keeps the newest [maxHistoryLength]
    entries: the new history is a suffix of the pushed one, of length
    min(pushed length, max(0, [maxHistoryLength])). *)
Theorem acceptBlock_keeps_newest (u : Block Payload) (r : Reader) :
  let pushed := blockHistory r ++ option_list (currentBlockData r) in
  blockHistory (acceptBlock u r) `suffix_of` pushed /\
  Z.of_nat (length (blockHistory (acceptBlock u r)))
    = Z.min (Z.of_nat (length pushed)) (Z.max 0 (maxHistoryLength r)) /\
  currentBlockData (acceptBlock u r) = Some u /\
  currentBlockNumber (acceptBlock u r) = blockNumber (blockInfo u).
Proof.
  unfold acceptBlock, trimHistory.
  destruct (currentBlockData r) as [c |]; simpl.
  - split; [apply suffix_drop |]. split; [rewrite length_drop; lia |].
    split; reflexivity.
  - rewrite app_nil_r. split; [apply suffix_drop |].
    split; [rewrite length_drop; lia |]. split; reflexivity.
Qed.

(** *** One step of [nextBlock] *)

(** X24.  When the head has to be refreshed and [getHeadBlockNumber]
    rejects, [nextBlock] throws that rejection and the fields of the reader
    are all as they were. *)
Theorem nextBlock_head_rejected (s : St) (e : Exn) (c : Chain) :
  currentBlockNumber (this s) = headBlockNumber (this s)
    \/ headBlockNumber (this s) = 0 ->
  getHeadBlockNumber_impl source (chain s) = (Throw e, c) ->
  nextBlock source s =
    (Throw e, mkSt (this s) c (calls s ++ [CallGetHeadBlockNumber])).
Proof.
  intros Hat Hhead.
  assert ((currentBlockNumber (this s) =? headBlockNumber (this s))
          || (headBlockNumber (this s) =? 0) = true) as Hrefresh.
  { apply orb_true_iff. destruct Hat as [-> | ->];
      [left | right]; apply Z.eqb_refl. }
  unfold nextBlock, refreshHead, bind, self. cbv beta iota. rewrite Hrefresh.
  unfold when, bind, getHeadBlockNumber. rewrite Hhead. reflexivity.
Qed.

(** The conditions under which [nextBlock] goes straight to the prefetch
    buffer: the cached head is kept, there is no wrap to the end of the
    chain, the reader is behind the head and the buffer is not empty. *)
Lemma nextBlock_from_buffer (s : St) :
  currentBlockNumber (this s) < headBlockNumber (this s) ->
  headBlockNumber (this s) <> 0 ->
  0 <= currentBlockNumber (this s) \/ blockHistory (this s) <> [] ->
  tmpBlocks (this s) <> [] ->
  nextBlock source s =
    bind (bind (update (set_index (S (index (this s))))) (fun _ =>
            let expectedHash := match currentBlockData (this s) with
                                | Some c => blockHash (blockInfo c)
                                | None => "INVALID"
                                end in
            match tmpBlocks (this s) !! index (this s) with
            | None => throw JsTypeError
            | Some u =>
                if String.eqb expectedHash (previousBlockHash (blockInfo u))
                   || (length (blockHistory (this s)) =? 0)%nat
                then update (acceptBlock u) ;; ret (false, true)
                else resolveFork source ;;
                     h <- getHeadBlockNumber source ;;
                     update (set_headBlockNumber h) ;;
                     ret (true, true)
            end))
         (fun flags =>
            update (fun r => set_isFirstBlock
                               (currentBlockNumber r =? startAtBlock r) r) ;;
            r <- self ;;
            match currentBlockData r with
            | None => throw (JsError "currentBlockData must not be null.")
            | Some b => ret (b, fst flags, snd flags)
            end) s.
Proof.
  intros Hbehind Hhead Hpos Hbuffer.
  assert ((currentBlockNumber (this s) =? headBlockNumber (this s))
          || (headBlockNumber (this s) =? 0) = false) as Hrefresh.
  { apply orb_false_iff. split; apply Z.eqb_neq; lia. }
  assert ((currentBlockNumber (this s) <? 0)
          && (length (blockHistory (this s)) =? 0)%nat = false) as Hwrap.
  { apply andb_false_iff. destruct Hpos as [Hp | Hp].
    - left. apply Z.ltb_ge, Hp.
    - right. apply Nat.eqb_neq. destruct (blockHistory (this s)); [contradiction | discriminate]. }
  assert ((length (tmpBlocks (this s)) =? 0)%nat = false) as Hfull.
  { apply Nat.eqb_neq. destruct (tmpBlocks (this s)); [contradiction | discriminate]. }
  assert (mkSt (this s) (chain s) (calls s) = s) as Hs by (destruct s; reflexivity).
  unfold nextBlock at 1. unfold bind at 1. unfold refreshHead, bind at 1, self at 1.
  rewrite Hrefresh. cbn [when ret].
  unfold bind at 1. unfold update at 1, modify, resolveTail. rewrite Hwrap, Hs.
  unfold bind at 1. unfold advance. unfold bind at 1, self at 1.
  destruct (Z.ltb_spec (currentBlockNumber (this s)) (headBlockNumber (this s)))
    as [_ | Hge]; [| lia].
  rewrite Hfull. cbn [when].
  unfold bind at 1. cbn [ret]. unfold bind at 1, self at 1.
  unfold bind at 5. reflexivity.
Qed.

(** X25.  When the block at [index] of the buffer links to the current block
    (or the history is empty), [nextBlock] delivers it without a single call
    to the chain: it is returned as a new block and no rollback, it becomes
    the current block, and the old current block goes on the history. *)
Theorem nextBlock_delivers_from_buffer (s : St) (u : Block Payload) :
  currentBlockNumber (this s) < headBlockNumber (this s) ->
  headBlockNumber (this s) <> 0 ->
  0 <= currentBlockNumber (this s) \/ blockHistory (this s) <> [] ->
  tmpBlocks (this s) !! index (this s) = Some u ->
  (exists c, currentBlockData (this s) = Some c /\
             blockHash (blockInfo c) = previousBlockHash (blockInfo u))
    \/ blockHistory (this s) = [] ->
  nextBlock source s =
    (Normal (u, false, true),
     mkSt (set_isFirstBlock (blockNumber (blockInfo u) =? startAtBlock (this s))
             (acceptBlock u (set_index (S (index (this s))) (this s))))
          (chain s) (calls s)).
Proof.
  intros Hbehind Hhead Hpos Hu Hlinked.
  assert (tmpBlocks (this s) <> []) as Hbuffer
    by (intros Hnil; rewrite Hnil in Hu; discriminate).
  rewrite (nextBlock_from_buffer s Hbehind Hhead Hpos Hbuffer).
  assert (String.eqb match currentBlockData (this s) with
                     | Some c => blockHash (blockInfo c)
                     | None => "INVALID"
                     end (previousBlockHash (blockInfo u))
          || (length (blockHistory (this s)) =? 0)%nat = true) as Hcond.
  { apply orb_true_iff. destruct Hlinked as [[c [Hc Hhash]] | Hempty].
    - left. rewrite Hc, Hhash. apply String.eqb_refl.
    - right. rewrite Hempty. reflexivity. }
  unfold bind, update, modify, self, ret. cbv beta iota. rewrite Hu.
  cbv beta iota zeta. rewrite Hcond.
  destruct s as [r c l]. destruct r as [? ? ? ? ? current ? ? ? ?].
  destruct current; reflexivity.
Qed.

(** X26.  When the block at [index] of the buffer does not link to the
    current block and the history is not empty, [nextBlock] resolves the
    fork: if the block fetched again under the current block's number links
    to the newest entry of the history, it is returned as a new block and a
    rollback, the block from the buffer is dropped, and the head is fetched
    again. *)
Theorem nextBlock_reports_fork (s : St) (u current previous fetched : Block Payload)
    (c1 c2 : Chain) (h : Z) :
  currentBlockNumber (this s) < headBlockNumber (this s) ->
  headBlockNumber (this s) <> 0 ->
  tmpBlocks (this s) !! index (this s) = Some u ->
  currentBlockData (this s) = Some current ->
  blockHash (blockInfo current) <> previousBlockHash (blockInfo u) ->
  last (blockHistory (this s)) = Some previous ->
  getBlock_impl source (blockNumber (blockInfo current)) (chain s) = (Normal fetched, c1) ->
  previousBlockHash (blockInfo fetched) = blockHash (blockInfo previous) ->
  getHeadBlockNumber_impl source c1 = (Normal h, c2) ->
  nextBlock source s =
    (Normal (fetched, true, true),
     mkSt (set_isFirstBlock
             (blockNumber (blockInfo previous) + 1 =? startAtBlock (this s))
             (set_headBlockNumber h
                (set_currentBlockNumber (blockNumber (blockInfo previous) + 1)
                   (set_currentBlockData (Some fetched)
                      (set_index (S (index (this s))) (this s))))))
          c2
          (calls s ++ [CallGetBlock (blockNumber (blockInfo current));
                       CallGetHeadBlockNumber])).
Proof.
  intros Hbehind Hhead Hu Hcur Hmiss Hlast Hget Hlink Hh.
  assert (blockHistory (this s) <> []) as Hhist
    by (intros Hnil; rewrite Hnil in Hlast; discriminate).
  assert (tmpBlocks (this s) <> []) as Hbuffer
    by (intros Hnil; rewrite Hnil in Hu; discriminate).
  rewrite (nextBlock_from_buffer s Hbehind Hhead (or_intror Hhist) Hbuffer).
  assert (String.eqb (blockHash (blockInfo current)) (previousBlockHash (blockInfo u))
          || (length (blockHistory (this s)) =? 0)%nat = false) as Hcond.
  { apply orb_false_iff. split.
    - apply String.eqb_neq, Hmiss.
    - apply Nat.eqb_neq. destruct (blockHistory (this s)); [contradiction | discriminate]. }
  rewrite Hu, Hcur. cbv zeta. rewrite Hcond.
  unfold bind at 1 2. unfold update at 1, modify.
  unfold bind at 1.
  rewrite (resolveFork_relinks_at_once
             (mkSt (set_index (S (index (this s))) (this s)) (chain s) (calls s))
             current previous fetched c1 Hcur Hlast Hget Hlink).
  unfold bind, getHeadBlockNumber. cbn [chain]. rewrite Hh.
  unfold update, modify, self, ret. cbn [this chain calls].
  rewrite <- app_assoc.
  destruct s as [r c l]. destruct r. reflexivity.
Qed.

End WithChain.

(** *** Runs on the sample chain *)

Import Sample.

(** A reader that stands on block 8, the head of [chain8]. *)
Lemma nextBlock_idle_at_head_witness :
  let r := set_currentBlockNumber 8 (set_currentBlockData (Some b8)
             (reader6 3 [b5; b6; b7])) in
  nextBlock listSource (reached r) =
    (Normal (b8, false, false),
     mkSt (set_isFirstBlock (currentBlockNumber r =? startAtBlock r)
             (set_index 0%nat (set_tmpBlocks [] (set_headBlockNumber 8 r))))
          chain8 (calls8 ++ [CallGetHeadBlockNumber])).
Proof.
  apply (nextBlock_idle_at_head listSource
           (reached (set_currentBlockNumber 8 (set_currentBlockData (Some b8)
                       (reader6 3 [b5; b6; b7]))))
           8 chain8 b8).
  - left. reflexivity.
  - left. simpl. lia.
  - reflexivity.
  - simpl. lia.
  - reflexivity.
Defined.

Lemma nextBlock_return_shape_witness :
  let s := reached (reader6 3 [b3; b4; b5]) in
  let s' := final (nextBlock listSource) s in
  currentBlockData (this s') = Some b7 /\
  isFirstBlock (this s') = (currentBlockNumber (this s') =? startAtBlock (this s')) /\
  (false = true -> true = true) /\
  (false = false -> true = true ->
   currentBlockNumber (this s') = blockNumber (blockInfo b7)).
Proof.
  apply (nextBlock_return_shape listSource (reached (reader6 3 [b3; b4; b5]))
           (final (nextBlock listSource) (reached (reader6 3 [b3; b4; b5])))
           b7 false true).
  vm_compute. reflexivity.
Defined.

(** After eight calls on [chain8] the reader stands on block 7 with its
    buffer of eight blocks used up. *)
Lemma nextBlock_buffer_exhausted_witness :
  let s := deliver 8 (start (constructor 1 false 3) chain8) in
  nextBlock listSource s =
    (Throw JsTypeError,
     mkSt (set_index (S (index (this s))) (this s)) (chain s) (calls s)).
Proof.
  apply (nextBlock_buffer_exhausted listSource
           (deliver 8 (start (constructor 1 false 3) chain8))).
  - vm_compute. reflexivity.
  - vm_compute. discriminate.
  - left. vm_compute. discriminate.
  - vm_compute. discriminate.
  - vm_compute. lia.
Defined.

Lemma seekToBlock_lands_before_target_witness :
  let s := reached (reader6 3 [b3; b4; b5]) in
  let s' := final (seekToBlock listSource 2) s in
  currentBlockNumber (this s') = 2 - 1 /\
  headBlockNumber (this s') = 0 /\
  startAtBlock (this s') = startAtBlock (this s) /\
  maxHistoryLength (this s') = maxHistoryLength (this s) /\
  (2 = 1 -> blockHistory (this s') = [] /\ currentBlockData (this s') = None) /\
  (2 <> 1 -> currentBlockData (this s') <> None).
Proof.
  apply (seekToBlock_lands_before_target listSource
           (reached (reader6 3 [b3; b4; b5]))
           (final (seekToBlock listSource 2) (reached (reader6 3 [b3; b4; b5]))) 2).
  vm_compute. reflexivity.
Defined.

Lemma seekToBlock_refetches_witness :
  let s := reached (reader6 3 [b3; b4; b5]) in
  seekToBlock listSource 5 s =
    (Normal tt,
     mkSt (set_currentBlockData (Some b4)
             (set_currentBlockNumber (5 - 1) (set_headBlockNumber 0 (this s))))
          chain8 (calls s ++ [CallGetBlock (5 - 1)])).
Proof.
  apply (seekToBlock_refetches listSource (reached (reader6 3 [b3; b4; b5])) 5 b4 chain8).
  - simpl. lia.
  - lia.
  - right. exists b5. split; reflexivity.
  - reflexivity.
Defined.

Lemma resolveFork_history_exhausted_witness :
  let s := reached (reader6 3 []) in
  resolveFork listSource s =
    (Throw (JsError "Fork resolution history has been exhausted, and no history exhaustion handling has been implemented."),
     s).
Proof.
  apply (resolveFork_history_exhausted listSource (reached (reader6 3 [])) b6);
    reflexivity.
Defined.

Lemma resolveFork_relinks_at_once_witness :
  let s := reached (reader6 3 [b3; b4; b5]) in
  resolveFork listSource s =
    (Normal tt,
     mkSt (set_currentBlockNumber (blockNumber (blockInfo b5) + 1)
             (set_currentBlockData (Some b6) (this s)))
          chain8 (calls s ++ [CallGetBlock (blockNumber (blockInfo b6))])).
Proof.
  apply (resolveFork_relinks_at_once listSource (reached (reader6 3 [b3; b4; b5]))
           b6 b5 b6 chain8); reflexivity.
Defined.

Lemma prefetch_fills_buffer_witness :
  let s := start (set_headBlockNumber 8 (constructor 1 false 3)) chain8 in
  let s' := final (prefetch listSource) s in
  length (tmpBlocks (this s')) = Z.to_nat (headBlockNumber (this s)) /\
  currentBlockNumber (this s') = 0 /\
  index (this s') = index (this s) /\
  blockHistory (this s') = blockHistory (this s).
Proof.
  apply (prefetch_fills_buffer listSource
           (start (set_headBlockNumber 8 (constructor 1 false 3)) chain8)
           (final (prefetch listSource)
              (start (set_headBlockNumber 8 (constructor 1 false 3)) chain8))).
  vm_compute. reflexivity.
Defined.

Lemma nextBlock_head_rejected_witness :
  let s := start (constructor 1 false 3) chain8 in
  nextBlock offlineSource s =
    (Throw (Rejected "offline"),
     mkSt (this s) chain8 (calls s ++ [CallGetHeadBlockNumber])).
Proof.
  apply (nextBlock_head_rejected offlineSource
           (start (constructor 1 false 3) chain8) (Rejected "offline") chain8).
  - right. reflexivity.
  - reflexivity.
Defined.

Lemma nextBlock_delivers_from_buffer_witness :
  let s := reached (reader6 3 [b3; b4; b5]) in
  nextBlock listSource s =
    (Normal (b7, false, true),
     mkSt (set_isFirstBlock (blockNumber (blockInfo b7) =? startAtBlock (this s))
             (acceptBlock b7 (set_index (S (index (this s))) (this s))))
          (chain s) (calls s)).
Proof.
  apply (nextBlock_delivers_from_buffer listSource (reached (reader6 3 [b3; b4; b5])) b7).
  - simpl. lia.
  - simpl. lia.
  - left. simpl. lia.
  - reflexivity.
  - left. exists b6. split; reflexivity.
Defined.

Lemma nextBlock_reports_fork_witness :
  let s := reached reader6forked in
  nextBlock listSource s =
    (Normal (b6, true, true),
     mkSt (set_isFirstBlock
             (blockNumber (blockInfo b5) + 1 =? startAtBlock (this s))
             (set_headBlockNumber 8
                (set_currentBlockNumber (blockNumber (blockInfo b5) + 1)
                   (set_currentBlockData (Some b6)
                      (set_index (S (index (this s))) (this s))))))
          chain8
          (calls s ++ [CallGetBlock (blockNumber (blockInfo b6));
                       CallGetHeadBlockNumber])).
Proof.
  apply (nextBlock_reports_fork listSource (reached reader6forked)
           b7fork b6 b5 b6 chain8 chain8 8).
  - simpl. lia.
  - simpl. lia.
  - reflexivity.
  - reflexivity.
  - simpl. discriminate.
  - reflexivity.
  - reflexivity.
  - reflexivity.
  - reflexivity.
Defined.

End ReaderMore.

(** ** More on the handler *)

Module HandlerMore.

Import Handler HandlerFacts.

Section WithBinder.

Context {Payload StateRef CtxRef World : Type}.
Context (binder : Binder Payload StateRef CtxRef World).

Local Abbreviation Handler := (Handler Payload StateRef CtxRef World).
Local Abbreviation St := (St Payload StateRef CtxRef World).
Local Abbreviation Version := (HandlerVersion Payload StateRef CtxRef World).
Local Abbreviation emits :=
  (Handler.emits (Payload := Payload) (StateRef := StateRef) (CtxRef := CtxRef)
     (World := World)).

(** *** The registry the constructor builds *)

Lemma Forall_insert_free (m : gmap string Version) key (hv : Version) (l : list string) :
  Forall (fun name => <[key := hv]> m !! name = None) l <->
  ~ In key l /\ Forall (fun name => m !! name = None) l.
Proof.
  induction l as [| x l IH].
  - split; [intros _; split; [intros [] | constructor] | intros _; constructor].
  - rewrite !Forall_cons, IH. cbn [In].
    destruct (decide (key = x)) as [-> | Hne].
    + rewrite lookup_insert_eq. split; [intros [H _]; discriminate |].
      intros [H _]. exfalso. apply H. left. reflexivity.
    + rewrite lookup_insert_ne by exact Hne. split.
      * intros [Hx [Hnot Hl]]. split; [| split; assumption].
        intros [He | Hin]; [symmetry in He |]; contradiction.
      * intros [Hnot [Hx Hl]]. split; [exact Hx |]. split; [| exact Hl].
        intros Hin. apply Hnot. right. exact Hin.
Qed.

(** The registration loop runs to its end without shadowing
    [hasOwnProperty] exactly when no version has that name and the names
    other than "__proto__" are new and pairwise different. *)
Lemma registerVersions_accepts (handlerVersions : list Version) :
  forall h0 : Handler,
    handlerVersionMap h0 !! "hasOwnProperty" = None ->
    handlerVersionMap h0 !! "__proto__" = None ->
    (exists h, registerVersions handlerVersions h0 = Normal h /\
               handlerVersionMap h !! "hasOwnProperty" = None) <->
    ~ In "hasOwnProperty" (map versionName handlerVersions) /\
    NoDup (ownNames handlerVersions) /\
    Forall (fun name => handlerVersionMap h0 !! name = None) (ownNames handlerVersions).
Proof.
  induction handlerVersions as [| x rest IH]; intros h0 Hmethod Hproto.
  - split.
    + intros _. split; [intros [] | split; constructor].
    + intros _. exists h0. split; [reflexivity | exact Hmethod].
  - cbn [registerVersions]. rewrite (callHasOwnProperty_plain _ _ Hmethod).
    unfold ownNames. cbn [map List.filter]. fold (ownNames rest).
    destruct (String.eqb_spec (versionName x) "__proto__") as [Hp | Hp];
      cbn [negb].
    + (* the version becomes the prototype *)
      assert (hasOwnProperty (versionName x) (handlerVersionMap h0) = false) as ->.
      { rewrite Hp. unfold hasOwnProperty. rewrite Hproto. reflexivity. }
      rewrite Hp, (assignVersion_proto x h0 Hproto).
      rewrite (IH (set_handlerVersionMapProto (Some x) h0) Hmethod Hproto).
      cbn [set_handlerVersionMapProto handlerVersionMap In].
      split; intros [Hno H]; (split; [| exact H]).
      * intros [He | Hin]; [discriminate | contradiction].
      * intros Hin. apply Hno. right. exact Hin.
    + destruct (hasOwnProperty (versionName x) (handlerVersionMap h0)) eqn:Hhas.
      * (* the name is taken *)
        split; [intros [h [Hh _]]; discriminate |].
        intros [_ [_ Hfree]]. apply Forall_cons in Hfree. destruct Hfree as [Hx _].
        apply hasOwnProperty_true in Hhas. rewrite Hx in Hhas.
        destruct Hhas as [y Hy]. discriminate.
      * assert (handlerVersionMap h0 !! versionName x = None) as Hnone.
        { destruct (handlerVersionMap h0 !! versionName x) eqn:E; [| reflexivity].
          assert (hasOwnProperty (versionName x) (handlerVersionMap h0) = true) as Ht
            by (apply hasOwnProperty_true; rewrite E; eauto).
          rewrite Ht in Hhas. discriminate. }
        rewrite (assignVersion_plain _ x h0 Hp).
        destruct (decide (versionName x = "hasOwnProperty")) as [Hm | Hm].
        -- (* the method is shadowed from here on *)
           split.
           ++ intros [h [Hh Hfree]]. exfalso.
              pose proof (registerVersions_result _ _ _ Hh) as [_ [_ [_ [Hlookup _]]]].
              assert (handlerVersionMap h !! "hasOwnProperty" = Some x) as Hx.
              { apply Hlookup. left. cbn [set_handlerVersionMap handlerVersionMap].
                rewrite Hm. apply lookup_insert_eq. }
              rewrite Hx in Hfree. discriminate.
           ++ intros [Hno _]. exfalso. apply Hno. left. exact Hm.
        -- rewrite (IH (set_handlerVersionMap _ h0)).
           ++ cbn [set_handlerVersionMap handlerVersionMap In].
              rewrite Forall_insert_free, NoDup_cons, Forall_cons, list_elem_of_In.
              split.
              ** intros [Hno [Hnodup [Hnot Hfree]]].
                 split; [intros [He | Hin]; contradiction |].
                 repeat split; assumption.
              ** intros [Hno [[Hnot Hnodup] [_ Hfree]]].
                 split; [intros Hin; apply Hno; right; exact Hin |].
                 repeat split; assumption.
           ++ cbn [set_handlerVersionMap handlerVersionMap].
              rewrite lookup_insert_ne by exact Hm. exact Hmethod.
           ++ cbn [set_handlerVersionMap handlerVersionMap].
              rewrite lookup_insert_ne by exact Hp. exact Hproto.
Qed.

(** X12.  The constructor accepts a list of handler versions exactly when it
    is not empty, no version is named "hasOwnProperty" (such a version would
    shadow the method that the check after the loop calls) and no two
    versions have the same name, the name "__proto__" apart (it never becomes
    an own key, so any number of versions can carry it). *)
Theorem constructor_succeeds_iff (handlerVersions : list Version) :
  (exists h : Handler, constructor handlerVersions = Normal h) <->
  handlerVersions <> [] /\
  ~ In "hasOwnProperty" (map versionName handlerVersions) /\
  NoDup (ownNames handlerVersions).
Proof.
  pose proof (registerVersions_accepts handlerVersions initialFields
                (lookup_empty _) (lookup_empty _)) as Hacc.
  split.
  - intros [h Hh]. apply constructor_inv in Hh.
    destruct Hh as [first [rest [h1 [Hl [Hreg [Hown _]]]]]].
    split; [rewrite Hl; discriminate |].
    destruct Hacc as [Hacc _].
    destruct Hacc as [Hno [Hnodup _]]; [exists h1; split; assumption |].
    split; assumption.
  - intros [Hne [Hno Hnodup]]. destruct Hacc as [_ Hacc].
    destruct Hacc as [h1 [Hreg Hown]].
    { split; [exact Hno | split; [exact Hnodup |]].
      apply Forall_forall. intros name _. apply lookup_empty. }
    destruct handlerVersions as [| first rest]; [contradiction |].
    eexists. apply constructor_inv. exists first, rest, h1.
    split; [reflexivity | split; [exact Hreg | split; [exact Hown | reflexivity]]].
Qed.

(** X13.  In the handler the constructor returns, the own keys of the
    version map are the names of the versions of the list other than
    "__proto__", each bound to its version; the key "__proto__" reads the last
    version of that name, if there is one; and the cursor is at block 0 with
    the empty hash. *)
Theorem constructor_registers_each_version (handlerVersions : list Version)
    (h : Handler) :
  constructor handlerVersions = Normal h ->
  (forall name hv,
     handlerVersionMap h !! name = Some hv <->
     In hv handlerVersions /\ versionName hv = name /\ name <> "__proto__") /\
  getVersion "__proto__" h = lastProto handlerVersions /\
  (forall name, name <> "__proto__" ->
                getVersion name h = handlerVersionMap h !! name) /\
  lastProcessedBlockNumber h = 0 /\
  lastProcessedBlockHash h = "".
Proof.
  intros H. apply constructor_lookup in H.
  destruct H as [Hlookup [_ [Hproto [Hn [Hh _]]]]].
  split; [exact Hlookup |]. split; [| split; [| split; assumption]].
  - unfold getVersion.
    destruct (handlerVersionMap h !! "__proto__") as [hv |] eqn:E.
    + apply Hlookup in E. destruct E as [_ [_ E]]. contradiction.
    + exact Hproto.
  - intros name Hne. unfold getVersion.
    destruct (handlerVersionMap h !! name); [reflexivity |].
    destruct (String.eqb_spec name "__proto__"); [contradiction | reflexivity].
Qed.

(** X14.  The handler starts under the version "v1" when the list has a
    version of that name, wherever it stands in the list, and under the first
    version of the list otherwise. *)
Theorem constructor_start_version (handlerVersions : list Version) (h : Handler) :
  constructor handlerVersions = Normal h ->
  (In "v1" (map versionName handlerVersions) -> handlerVersionName h = "v1") /\
  (~ In "v1" (map versionName handlerVersions) ->
   exists first, head handlerVersions = Some first /\
                 handlerVersionName h = versionName first).
Proof.
  intros H.
  assert (handlerVersions <> []) as Hsome by (intros ->; discriminate H).
  apply constructor_lookup in H. destruct H as [Hlookup [_ [_ [_ [_ Hname]]]]].
  assert (hasOwnProperty "v1" (handlerVersionMap h) = true
          <-> In "v1" (map versionName handlerVersions)) as Hv1.
  { rewrite hasOwnProperty_true. split.
    - intros [hv Hhv]. apply Hlookup in Hhv. destruct Hhv as [Hin [Hn _]].
      rewrite <- Hn. apply in_map, Hin.
    - intros Hin. apply in_map_iff in Hin. destruct Hin as [hv [Hn Hin]].
      exists hv. apply Hlookup. split; [exact Hin | split; [exact Hn | discriminate]]. }
  split.
  - intros Hin. apply Hv1 in Hin. rewrite Hin in Hname. exact Hname.
  - intros Hnot. destruct (hasOwnProperty "v1" (handlerVersionMap h)) eqn:E.
    + exfalso. apply Hnot, Hv1. reflexivity.
    + destruct handlerVersions as [| first rest].
      * contradiction.
      * exists first. split; [reflexivity | exact Hname].
Qed.

(** *** The first block *)

Lemma truthy_true (v : string) : truthy v = true <-> v <> "".
Proof. destruct v; simpl; split; intros H; congruence. Qed.

(** X15.  A first block that is not the last processed block, handed to a
    handler whose cursor (after the rollback or cold-start step) has a
    non-empty hash, is not applied: [handleBlock] returns
    [(true, lastProcessedBlockNumber + 1)] and calls nothing more. *)
Theorem handleBlock_first_block_seek block isRollback isReplay (s s1 : St) :
  rollbackOrColdStart binder block isRollback true isReplay s = (Normal tt, s1) ->
  ~ (blockNumber (blockInfo block) = lastProcessedBlockNumber (this s1) /\
     blockHash (blockInfo block) = lastProcessedBlockHash (this s1)) ->
  lastProcessedBlockHash (this s1) <> "" ->
  handleBlock binder block isRollback true isReplay s =
    (Normal (true, lastProcessedBlockNumber (this s1) + 1), s1).
Proof.
  intros Hfirst Hnew Hhash.
  unfold handleBlock, bind. rewrite Hfirst.
  unfold checkAndApply, bind, self. simpl.
  destruct (Z.eqb_spec (blockNumber (blockInfo block))
              (lastProcessedBlockNumber (this s1))) as [Hn | Hn];
    [destruct (String.eqb_spec (blockHash (blockInfo block))
                 (lastProcessedBlockHash (this s1))) as [Hh | Hh] |];
    simpl.
  - exfalso. apply Hnew. split; assumption.
  - rewrite (proj2 (truthy_true _) Hhash). reflexivity.
  - rewrite (proj2 (truthy_true _) Hhash). reflexivity.
Qed.

(** *** Calls, in general *)

Section Emits.

Context (Q : Event -> Prop).

Lemma updaterLoop_emits_any state block isReplay context action name us :
  (forall v i t, Q (EvApply v i t)) ->
  (forall n r v, Q (EvUpdateIndexState n r v)) ->
  forall updaterIndex,
    emits Q (updaterLoop binder state block isReplay context action name us updaterIndex).
Proof.
  intros Happly Hupdate.
  induction us as [| updater rest IH]; intros updaterIndex; simpl.
  - apply emits_ret.
  - destruct (String.eqb _ _); [| apply IH].
    apply emits_bind; [apply emits_call, Happly | intros newVersion].
    apply emits_bind; [apply emits_self | intros h].
    destruct newVersion as [v |]; [| apply IH].
    destruct (truthy v && negb _); [apply IH |].
    destruct (truthy v); [| apply IH].
    apply emits_bind; [apply emits_call, Hupdate | intros _].
    apply emits_bind; [apply emits_update | intros _; apply emits_ret].
Qed.

Lemma actionLoop_emits_any state block isReplay context todo :
  (forall v i t, Q (EvApply v i t)) ->
  (forall n r v, Q (EvUpdateIndexState n r v)) ->
  forall versionedActions,
    emits Q (actionLoop binder state block isReplay context todo versionedActions).
Proof.
  intros Happly Hupdate.
  induction todo as [| action rest IH]; intros versionedActions; simpl.
  - apply emits_ret.
  - apply emits_bind; [| intros _].
    + apply emits_bind; [apply emits_self | intros h].
      destruct (getVersion _ _); [| apply emits_throw].
      apply updaterLoop_emits_any; assumption.
    + apply emits_bind; [apply emits_self | intros h]. apply IH.
Qed.

Lemma runEffects_emits_any versionedActions (block : Block Payload) (context : CtxRef) :
  (forall v i t, Q (EvRun v i t)) ->
  emits Q (runEffects versionedActions block context).
Proof.
  intros Hrun.
  assert (forall action name es effectIndex,
            emits Q (effectLoop block context action name es effectIndex)) as Hloop.
  { intros action name es. induction es as [| effect rest IH]; intros i; simpl.
    - apply emits_ret.
    - apply emits_bind; [| intros _; apply IH].
      apply emits_when, emits_call, Hrun. }
  induction versionedActions as [| [action name] rest IH]; simpl.
  - apply emits_ret.
  - apply emits_bind; [apply emits_self | intros h].
    destruct (getVersion _ _); [| apply emits_throw].
    apply emits_bind; [apply Hloop | intros _; exact IH].
Qed.

Lemma handleActions_emits_any state block context isReplay :
  (forall v i t, Q (EvApply v i t)) ->
  (forall n r v, Q (EvUpdateIndexState n r v)) ->
  (forall v i t, Q (EvRun v i t)) ->
  emits Q (handleActions binder state block context isReplay).
Proof.
  intros Happly Hupdate Hrun. unfold handleActions.
  apply emits_bind; [apply actionLoop_emits_any; assumption | intros versionedActions].
  apply emits_bind; [apply emits_when, runEffects_emits_any, Hrun | intros _].
  apply emits_bind; [apply emits_self | intros h].
  apply emits_bind; [apply emits_call, Hupdate | intros _].
  apply emits_bind; [apply emits_update | intros _; apply emits_update].
Qed.

Lemma handleWithState_emits_any handle :
  Q EvHandleWithState ->
  (forall state context, emits Q (handle state context)) ->
  emits Q (handleWithState binder handle).
Proof.
  intros Hq Hh. unfold handleWithState.
  apply emits_bind; [apply emits_call, Hq | intros args].
  intros s. destruct (Hh (fst args) (snd args) s) as [evs [He Hall]].
  destruct (handle _ _ s) as [r s1]. simpl in He.
  destruct (emits_resume Q (handleWithState_leave binder r) s1)
    as [evs' [He' Hall']].
  exists (evs ++ evs'). rewrite He', He, app_assoc. split; [reflexivity |].
  apply Forall_app; auto.
Qed.

Lemma checkAndApply_emits_any block isFirstBlock isReplay :
  Q EvHandleWithState ->
  (forall v i t, Q (EvApply v i t)) ->
  (forall n r v, Q (EvUpdateIndexState n r v)) ->
  (forall v i t, Q (EvRun v i t)) ->
  emits Q (checkAndApply binder block isFirstBlock isReplay).
Proof.
  intros Hq Happly Hupdate Hrun. unfold checkAndApply.
  apply emits_bind; [apply emits_self | intros h].
  assert (emits Q
            (handleWithState binder
               (fun state context =>
                  handleActions binder state block
                    (default (emptyContext binder) context) isReplay) ;;
             ret (false, 0))) as Hgo.
  { apply emits_bind; [| intros _; apply emits_ret].
    apply handleWithState_emits_any; [exact Hq |].
    intros state context. apply handleActions_emits_any; assumption. }
  destruct (_ && _); [apply emits_ret |].
  destruct (_ && _); [apply emits_ret |].
  destruct (negb isFirstBlock); [| exact Hgo].
  destruct (negb _); [apply emits_ret |].
  destruct (negb _); [apply emits_throw | exact Hgo].
Qed.

Lemma refreshIndexState_emits_any :
  Q EvLoadIndexState -> emits Q (refreshIndexState binder).
Proof.
  intros Hq. unfold refreshIndexState.
  apply emits_bind; [apply emits_call, Hq | intros loaded].
  repeat (apply emits_bind; [apply emits_update | intros _]).
  apply emits_update.
Qed.

End Emits.

Lemma bind_assoc_at {S A B C} (c : M S A) (k1 : A -> M S B) (k2 : B -> M S C) (s : S) :
  bind (bind c k1) k2 s = bind c (fun a => bind (k1 a) k2) s.
Proof. unfold bind. destruct (c s) as [[a | e] s1]; reflexivity. Qed.

Lemma call_then_emits {A B} (Q : Event -> Prop) e
    (f : World -> completion A * World) (k : A -> M St B) :
  (forall a, emits Q (k a)) ->
  forall s : St,
    exists evs, trace (snd (bind (call e f) k s)) = trace s ++ e :: evs /\ Forall Q evs.
Proof.
  intros Hk s. unfold bind, call.
  destruct (f (world s)) as [[a | x] w]; simpl.
  - destruct (Hk a (mkSt (this s) w (trace s ++ [e]))) as [evs [He Hall]].
    exists evs. rewrite He. simpl. rewrite <- app_assoc. split; [reflexivity | exact Hall].
  - exists []. split; [reflexivity | constructor].
Qed.

(** X16.  [handleBlock] calls [rollbackTo] exactly when [isRollback] holds or
    both [isReplay] and [isFirstBlock] do; it is then its first call, made
    once, with the number of the block before the given one. *)
Theorem handleBlock_rollback_call block isRollback isFirstBlock isReplay (s : St) :
  (isRollback || (isReplay && isFirstBlock) = true ->
   exists evs,
     trace (final (handleBlock binder block isRollback isFirstBlock isReplay) s)
       = trace s ++ EvRollbackTo (blockNumber (blockInfo block) - 1) :: evs /\
     Forall notRollback evs) /\
  (isRollback || (isReplay && isFirstBlock) = false ->
   exists evs,
     trace (final (handleBlock binder block isRollback isFirstBlock isReplay) s)
       = trace s ++ evs /\
     Forall notRollback evs).
Proof.
  assert (emits notRollback
            (checkAndApply binder block isFirstBlock isReplay)) as Hcheck
    by (apply checkAndApply_emits_any; intros; exact I).
  assert (emits notRollback (refreshIndexState binder)) as Hrefresh
    by (apply refreshIndexState_emits_any; exact I).
  unfold final, handleBlock, rollbackOrColdStart. split; intros Hflag.
  - rewrite bind_assoc_at. unfold bind at 1, self at 1. rewrite Hflag.
    unfold rollbackTo. rewrite bind_assoc_at.
    apply call_then_emits. intros _.
    apply emits_bind; [exact Hrefresh | intros _; exact Hcheck].
  - assert (emits notRollback
              (bind (h <- self ;;
                     if isRollback || (isReplay && isFirstBlock)
                     then rollbackTo binder (blockNumber (blockInfo block) - 1) ;;
                          refreshIndexState binder
                     else if (lastProcessedBlockNumber h =? 0)
                             && String.eqb (lastProcessedBlockHash h) ""
                          then refreshIndexState binder
                          else ret tt)
                    (fun _ => checkAndApply binder block isFirstBlock isReplay)))
      as Hall.
    { apply emits_bind; [| intros _; exact Hcheck].
      apply emits_bind; [apply emits_self | intros h]. rewrite Hflag.
      destruct ((lastProcessedBlockNumber h =? 0) && _);
        [exact Hrefresh | apply emits_ret]. }
    apply (Hall s).
Qed.

(** X17.  A first block handed to a handler whose cursor (after the rollback
    or cold-start step) has the empty hash, and that is not at that cursor,
    is applied whatever its number and its previous hash: the next call is
    [handleWithState], and if [handleBlock] returns it returns [(false, 0)]. *)
Theorem handleBlock_first_block_applied block isRollback isReplay (s s1 : St) :
  rollbackOrColdStart binder block isRollback true isReplay s = (Normal tt, s1) ->
  lastProcessedBlockHash (this s1) = "" ->
  ~ (blockNumber (blockInfo block) = lastProcessedBlockNumber (this s1) /\
     blockHash (blockInfo block) = "") ->
  (exists evs,
     trace (final (handleBlock binder block isRollback true isReplay) s)
       = trace s1 ++ EvHandleWithState :: evs) /\
  (forall r s', handleBlock binder block isRollback true isReplay s = (Normal r, s') ->
                r = (false, 0)).
Proof.
  intros Hfirst Hhash Hnew.
  assert (handleBlock binder block isRollback true isReplay s =
          bind (handleWithState binder
                  (fun state context =>
                     handleActions binder state block
                       (default (emptyContext binder) context) isReplay))
               (fun _ => ret (false, 0)) s1) as Heq.
  { unfold handleBlock. unfold bind at 1. rewrite Hfirst.
    unfold checkAndApply. unfold bind at 1, self at 1. rewrite Hhash. simpl.
    destruct (Z.eqb_spec (blockNumber (blockInfo block))
                (lastProcessedBlockNumber (this s1))) as [Hn | Hn];
      [destruct (String.eqb_spec (blockHash (blockInfo block)) "") as [Hh | Hh] |];
      simpl; try reflexivity.
    exfalso. apply Hnew. split; assumption. }
  split.
  - unfold final. rewrite Heq. unfold handleWithState. rewrite bind_assoc_at.
    destruct (call_then_emits (fun _ => True) EvHandleWithState
                (handleWithState_enter binder)
                (fun args =>
                   bind (fun s0 =>
                           let (r, s2) :=
                             handleActions binder (fst args) block
                               (default (emptyContext binder) (snd args)) isReplay s0 in
                           resume (handleWithState_leave binder r) s2)
                        (fun _ => ret (false, 0))) ) with (s := s1)
      as [evs [He _]].
    + intros args. apply emits_bind; [| intros _; apply emits_ret].
      intros s0.
      destruct (handleActions_emits_any (fun _ => True) (fst args) block
                  (default (emptyContext binder) (snd args)) isReplay
                  (fun _ _ _ => I) (fun _ _ _ => I) (fun _ _ _ => I) s0)
        as [evs [He Hall]].
      destruct (handleActions _ _ _ _ _ s0) as [r s2]. simpl in He.
      destruct (emits_resume (fun _ => True)
                  (handleWithState_leave binder r) s2) as [evs' [He' Hall']].
      exists (evs ++ evs'). rewrite He', He, app_assoc.
      split; [reflexivity | apply Forall_app; auto].
    + exists evs. exact He.
  - intros r s'. rewrite Heq. unfold bind.
    destruct (handleWithState binder _ s1) as [[[] | e] s2]; [| discriminate].
    unfold ret. intros H. inversion H. reflexivity.
Qed.

(** *** What the updaters and effects leave alone *)

Section Stable.

(** A property of the state that depends neither on the world, nor on the
    trace, nor on the active version name. *)
Context (P : St -> Prop).
Context (Hworld : forall s w t, P s -> P (mkSt (this s) w t)).
Context (Hname : forall s v,
            P s -> P (mkSt (set_handlerVersionName v (this s)) (world s) (trace s))).

Lemma stable_call {A} e (f : World -> completion A * World) : preserves P (call e f).
Proof. intros s H. unfold call. destruct (f (world s)). apply Hworld, H. Qed.

Lemma stable_resume {A} (f : World -> completion A * World) : preserves P (resume f).
Proof. intros s H. unfold resume. destruct (f (world s)). apply Hworld, H. Qed.

Lemma stable_self : preserves P self.
Proof. intros s H. exact H. Qed.

Lemma updaterLoop_stable state block isReplay context action name us :
  forall updaterIndex,
    preserves P (updaterLoop binder state block isReplay context action name us updaterIndex).
Proof.
  induction us as [| updater rest IH]; intros updaterIndex; simpl.
  - apply preserves_ret.
  - destruct (String.eqb _ _); [| apply IH].
    apply preserves_bind; [apply stable_call | intros newVersion].
    apply preserves_bind; [apply stable_self | intros h].
    destruct newVersion as [v |]; [| apply IH].
    destruct (truthy v && negb _); [apply IH |].
    destruct (truthy v); [| apply IH].
    apply preserves_bind; [apply stable_call | intros _].
    apply preserves_bind; [| intros _; apply preserves_ret].
    intros s H. apply Hname, H.
Qed.

Lemma actionLoop_stable state block isReplay context todo :
  forall versionedActions,
    preserves P (actionLoop binder state block isReplay context todo versionedActions).
Proof.
  induction todo as [| action rest IH]; intros versionedActions; simpl.
  - apply preserves_ret.
  - apply preserves_bind; [| intros _].
    + apply preserves_bind; [apply stable_self | intros h].
      destruct (getVersion _ _); [apply updaterLoop_stable | apply preserves_throw].
    + apply preserves_bind; [apply stable_self | intros h]. apply IH.
Qed.

Lemma runEffects_stable versionedActions (block : Block Payload) (context : CtxRef) :
  preserves P (runEffects versionedActions block context).
Proof.
  assert (forall action name es effectIndex,
            preserves P (effectLoop block context action name es effectIndex)) as Hloop.
  { intros action name es. induction es as [| effect rest IH]; intros i; simpl.
    - apply preserves_ret.
    - apply preserves_bind; [| intros _; apply IH].
      apply preserves_when, stable_call. }
  induction versionedActions as [| [action name] rest IH]; simpl.
  - apply preserves_ret.
  - apply preserves_bind; [apply stable_self | intros h].
    destruct (getVersion _ _); [| apply preserves_throw].
    apply preserves_bind; [apply Hloop | intros _; exact IH].
Qed.

End Stable.

(** X18.  [handleActions] moves the in-memory cursor to the block only when
    everything before succeeded: if it returns, [lastProcessedBlockNumber]
    and [lastProcessedBlockHash] are those of the block; if an updater, an
    effect or [updateIndexState] throws, they are what they were. *)
Theorem handleActions_cursor state block context isReplay (s : St) :
  match fst (handleActions binder state block context isReplay s) with
  | Normal _ =>
      lastProcessedBlockNumber
        (this (final (handleActions binder state block context isReplay) s))
        = blockNumber (blockInfo block) /\
      lastProcessedBlockHash
        (this (final (handleActions binder state block context isReplay) s))
        = blockHash (blockInfo block)
  | Throw _ =>
      lastProcessedBlockNumber
        (this (final (handleActions binder state block context isReplay) s))
        = lastProcessedBlockNumber (this s) /\
      lastProcessedBlockHash
        (this (final (handleActions binder state block context isReplay) s))
        = lastProcessedBlockHash (this s)
  end.
Proof.
  set (P := fun s0 : St =>
              lastProcessedBlockNumber (this s0) = lastProcessedBlockNumber (this s) /\
              lastProcessedBlockHash (this s0) = lastProcessedBlockHash (this s)).
  assert (forall s0 w t, P s0 -> P (mkSt (this s0) w t)) as Hworld
    by (intros s0 w t H; exact H).
  assert (forall s0 v, P s0 ->
            P (mkSt (set_handlerVersionName v (this s0)) (world s0) (trace s0)))
    as Hname by (intros s0 v H; exact H).
  assert (P s) as Hs by (split; reflexivity).
  unfold final, handleActions, applyUpdaters, bind.
  pose proof (actionLoop_stable P Hworld Hname state block isReplay context
                (actions block) [] s Hs) as H1.
  destruct (actionLoop _ _ _ _ _ _ _ s) as [[versionedActions | e] s1];
    simpl in *; [| exact H1].
  pose proof (preserves_when P (negb isReplay) _
                (runEffects_stable P Hworld versionedActions block context) s1 H1)
    as H2.
  destruct (when _ _ s1) as [[[] | e] s2]; simpl in *; [| exact H2].
  pose proof (stable_call P Hworld
                (EvUpdateIndexState (blockNumber (blockInfo block)) isReplay
                   (handlerVersionName (this s2)))
                (updateIndexState_impl binder state block isReplay
                   (handlerVersionName (this s2)) context) s2 H2) as H3.
  unfold updateIndexState.
  destruct (call _ _ s2) as [[[] | e] s3]; simpl in *; [| exact H3].
  split; reflexivity.
Qed.

(** X19.  When no updater of the active version has the type of any action
    of the block, [applyUpdaters] calls nothing and changes nothing, and
    pairs every action with the active version name. *)
Theorem applyUpdaters_no_match state block isReplay context (s : St) (hv : Version) :
  handlerVersionMap (this s) !! handlerVersionName (this s) = Some hv ->
  Forall (fun action =>
            Forall (fun updater => type action <> updaterActionType updater)
                   (updaters hv))
         (actions block) ->
  applyUpdaters binder state block isReplay context s =
    (Normal (map (fun action => (action, handlerVersionName (this s))) (actions block)),
     s).
Proof.
  intros Hhv Hnone.
  assert (forall action name us updaterIndex,
            Forall (fun updater => type action <> updaterActionType updater) us ->
            updaterLoop binder state block isReplay context action name us updaterIndex s
              = (Normal false, s)) as Hloop.
  { intros action name us. induction us as [| updater rest IH];
      intros updaterIndex Hus; simpl; [reflexivity |].
    inversion Hus as [| ? ? Hne Hrest]; subst.
    destruct (String.eqb_spec (type action) (updaterActionType updater));
      [contradiction |].
    apply IH, Hrest. }
  unfold applyUpdaters.
  assert (forall todo acc,
            Forall (fun action =>
                      Forall (fun updater => type action <> updaterActionType updater)
                             (updaters hv)) todo ->
            actionLoop binder state block isReplay context todo acc s =
              (Normal (acc ++ map (fun action => (action, handlerVersionName (this s))) todo),
               s)) as Hactions.
  { induction todo as [| action rest IH]; intros acc Htodo; simpl.
    - rewrite app_nil_r. reflexivity.
    - inversion Htodo as [| ? ? Ha Hrest]; subst.
      unfold applyToAction, bind, self. cbv beta iota.
      rewrite (getVersion_own _ _ _ Hhv).
      rewrite (Hloop _ _ _ _ Ha).
      rewrite (IH _ Hrest), <- app_assoc. reflexivity. }
  apply (Hactions (actions block) [] Hnone).
Qed.

(** X20.  Starting from an active version that is registered, every version
    name [applyUpdaters] pairs with an action is a key of the version map. *)
Theorem applyUpdaters_pairs_registered state block isReplay context (s s1 : St)
    versionedActions :
  versionRegistered (this s) ->
  applyUpdaters binder state block isReplay context s = (Normal versionedActions, s1) ->
  Forall (fun pair => is_Some (handlerVersionMap (this s1) !! snd pair))
         versionedActions /\
  handlerVersionMap (this s1) = handlerVersionMap (this s).
Proof.
  intros Hreg. unfold applyUpdaters.
  set (m := handlerVersionMap (this s)).
  assert (forall todo acc (s0 s2 : St) result,
            registeredIn m s0 ->
            Forall (fun pair => is_Some (m !! snd pair)) acc ->
            actionLoop binder state block isReplay context todo acc s0
              = (Normal result, s2) ->
            Forall (fun pair => is_Some (m !! snd pair)) result /\
            registeredIn m s2) as Hloop.
  { induction todo as [| action rest IH]; intros acc s0 s2 result Hin Hacc H;
      simpl in H.
    - inversion H; subst. split; assumption.
    - unfold bind at 1 in H.
      pose proof (applyToAction_registered binder m state block isReplay context
                    action s0 Hin) as Hstep.
      destruct (applyToAction _ _ _ _ _ _ s0) as [[brk | e] s3]; [| discriminate].
      simpl in Hstep. unfold bind at 1, self at 1 in H.
      apply (IH _ _ _ _ Hstep) in H; [exact H |].
      apply Forall_app. split; [exact Hacc |].
      constructor; [apply Hstep | constructor]. }
  intros H.
  destruct (Hloop (actions block) [] s s1 versionedActions) as [Hall [Hm _]];
    [split; [reflexivity | exact Hreg] | constructor | exact H |].
  rewrite Hm. split; [exact Hall | reflexivity].
Qed.

(** X21.  When every version name of the pairs is a key of the version map
    and no effect of the registered versions throws, [runEffects] returns,
    and it leaves the fields of the handler as they were. *)
Theorem runEffects_returns versionedActions (block : Block Payload) (context : CtxRef)
    (s : St) :
  Forall (fun pair => is_Some (handlerVersionMap (this s) !! snd pair))
         versionedActions ->
  quietEffects (handlerVersionMap (this s)) ->
  exists s', runEffects versionedActions block context s = (Normal tt, s') /\
             this s' = this s.
Proof.
  intros Hall Hquiet.
  assert (forall action name es effectIndex (s0 : St),
            Forall (fun effect =>
                      forall p b c w, exists w', run effect p b c w = (Normal tt, w'))
                   es ->
            exists s', effectLoop block context action name es effectIndex s0
                         = (Normal tt, s') /\ this s' = this s0) as Hloop.
  { intros action name es. induction es as [| effect rest IH];
      intros i s0 Hes; simpl.
    - eexists. split; reflexivity.
    - inversion Hes as [| ? ? He Hrest]; subst.
      unfold bind, when.
      destruct (String.eqb _ _).
      + unfold call.
        destruct (He (payload action) block context (world s0)) as [w' Hw].
        rewrite Hw.
        destruct (IH (i + 1) (mkSt (this s0) w' (trace s0 ++ [EvRun name i (type action)]))
                    Hrest) as [s' [Hs' Ht]].
        exists s'. split; [exact Hs' | exact Ht].
      + simpl. apply IH, Hrest. }
  revert s Hall Hquiet.
  induction versionedActions as [| [action name] rest IH]; intros s Hall Hquiet; simpl.
  - eexists. split; reflexivity.
  - inversion Hall as [| ? ? [hv Hhv] Hrest]; subst. simpl in Hhv.
    unfold bind at 1, self at 1. rewrite (getVersion_own _ _ _ Hhv).
    destruct (Hloop action name (effects hv) 0 s (Hquiet _ _ Hhv)) as [s0 [Hs0 Ht0]].
    unfold bind. rewrite Hs0.
    destruct (IH s0) as [s' [Hs' Ht']].
    + rewrite Ht0. exact Hrest.
    + rewrite Ht0. exact Hquiet.
    + exists s'. split; [exact Hs' | congruence].
Qed.

(** *** What is persisted, and what is never changed *)

Section Known.

Context (m : gmap string Version) (trace0 : list Event).

Local Abbreviation known := (knownSince m trace0).

Lemma known_call {A} e (f : World -> completion A * World) :
  persistsKnown m e -> preserves known (call e f).
Proof.
  intros He s [Hm [evs [Ht Hall]]]. unfold call.
  destruct (f (world s)) as [r w]. split; [exact Hm |].
  exists (evs ++ [e]). simpl. rewrite Ht, <- app_assoc. split; [reflexivity |].
  apply Forall_app. split; [exact Hall | constructor; [exact He | constructor]].
Qed.

Lemma updaterLoop_known state block isReplay context action name us :
  forall updaterIndex,
    preserves known
      (updaterLoop binder state block isReplay context action name us updaterIndex).
Proof.
  induction us as [| updater rest IH]; intros updaterIndex; simpl.
  - apply preserves_ret.
  - destruct (String.eqb _ _); [| apply IH].
    apply preserves_bind; [apply known_call; exact I | intros newVersion].
    intros s Hs. unfold bind at 1, self at 1.
    destruct newVersion as [v |]; [| apply IH, Hs].
    destruct (truthy v) eqn:Htruthy;
      destruct (hasOwnProperty v (handlerVersionMap (this s))) eqn:Hhas;
      simpl; try (apply IH, Hs).
    revert s Hs Hhas.
    assert (forall s : St,
              hasOwnProperty v (handlerVersionMap (this s)) = true ->
              known s ->
              known (snd ((updateIndexState binder state block isReplay v context ;;
                           update (set_handlerVersionName v) ;; ret true) s)))
      as Hswitch.
    { intros s Hhas Hs.
      apply (preserves_bind known); [| | exact Hs].
      - apply known_call. simpl. split.
        + apply truthy_true, Htruthy.
        + destruct Hs as [Hm _]. rewrite <- Hm. apply hasOwnProperty_true, Hhas.
      - intros _. apply preserves_bind; [| intros _; apply preserves_ret].
        intros s0 H0. exact H0. }
    intros s Hs Hhas. apply Hswitch; assumption.
Qed.

Lemma actionLoop_known state block isReplay context todo :
  forall versionedActions,
    preserves known
      (actionLoop binder state block isReplay context todo versionedActions).
Proof.
  induction todo as [| action rest IH]; intros versionedActions; simpl.
  - apply preserves_ret.
  - apply preserves_bind; [| intros _].
    + apply preserves_bind; [intros s H; exact H | intros h].
      destruct (getVersion _ _); [apply updaterLoop_known | apply preserves_throw].
    + apply preserves_bind; [intros s H; exact H | intros h]. apply IH.
Qed.

End Known.

(** X22.  Every [updateIndexState] call that [applyUpdaters] makes is made
    under a non-empty version name that is a key of the version map, and
    [applyUpdaters] leaves the version map as it is. *)
Theorem applyUpdaters_persists_known state block isReplay context (s : St) :
  handlerVersionMap
    (this (final (applyUpdaters binder state block isReplay context) s))
    = handlerVersionMap (this s) /\
  exists evs,
    trace (final (applyUpdaters binder state block isReplay context) s)
      = trace s ++ evs /\
    Forall (persistsKnown (handlerVersionMap (this s))) evs.
Proof.
  apply (actionLoop_known (handlerVersionMap (this s)) (trace s)
           state block isReplay context (actions block) [] s).
  split; [reflexivity |]. exists []. rewrite app_nil_r. split; [reflexivity | constructor].
Qed.

(** X23.  [handleBlock] never changes the version map, however it
    completes. *)
Theorem handleBlock_keeps_version_map block isRollback isFirstBlock isReplay (s : St) :
  handlerVersionMap
    (this (final (handleBlock binder block isRollback isFirstBlock isReplay) s))
    = handlerVersionMap (this s).
Proof.
  set (P := fun s0 : St => handlerVersionMap (this s0) = handlerVersionMap (this s)).
  assert (forall s0 w t, P s0 -> P (mkSt (this s0) w t)) as Hworld
    by (intros s0 w t H; exact H).
  assert (forall s0 v, P s0 ->
            P (mkSt (set_handlerVersionName v (this s0)) (world s0) (trace s0)))
    as Hname by (intros s0 v H; exact H).
  assert (preserves P (refreshIndexState binder)) as Hrefresh.
  { unfold refreshIndexState.
    apply preserves_bind; [apply stable_call, Hworld | intros loaded].
    repeat (apply preserves_bind; [intros s0 H0; exact H0 | intros _]).
    intros s0 H0. exact H0. }
  assert (forall state context,
            preserves P (handleActions binder state block context isReplay))
    as Hactions.
  { intros state context. unfold handleActions.
    apply preserves_bind;
      [apply actionLoop_stable; assumption | intros versionedActions].
    apply preserves_bind;
      [apply preserves_when, runEffects_stable, Hworld | intros _].
    apply preserves_bind; [apply stable_self | intros h].
    apply preserves_bind; [apply stable_call, Hworld | intros _].
    apply preserves_bind; [intros s0 H0; exact H0 | intros _].
    intros s0 H0. exact H0. }
  assert (preserves P
            (handleWithState binder
               (fun state context =>
                  handleActions binder state block
                    (default (emptyContext binder) context) isReplay) ;;
             ret (false, 0))) as Hgo.
  { apply preserves_bind; [| intros _; apply preserves_ret].
    unfold handleWithState.
    apply preserves_bind; [apply stable_call, Hworld | intros args].
    intros s0 H0.
    pose proof (Hactions (fst args) (default (emptyContext binder) (snd args)) s0 H0)
      as H1.
    destruct (handleActions _ _ _ _ _ s0) as [r s1]. simpl in H1.
    apply (stable_resume P Hworld _ s1 H1). }
  apply (preserves_bind P); [| | reflexivity].
  - unfold rollbackOrColdStart.
    apply preserves_bind; [apply stable_self | intros h].
    destruct (_ || _).
    + apply preserves_bind; [apply stable_call, Hworld | intros _; exact Hrefresh].
    + destruct (_ && _); [exact Hrefresh | apply preserves_ret].
  - intros _. unfold checkAndApply.
    apply preserves_bind; [apply stable_self | intros h].
    destruct (_ && _); [apply preserves_ret |].
    destruct (_ && _); [apply preserves_ret |].
    destruct (negb isFirstBlock); [| exact Hgo].
    destruct (negb _); [apply preserves_ret |].
    destruct (negb _); [apply preserves_throw | exact Hgo].
Qed.

(** *** The block after the last processed one *)

Lemma applyBlock_starts (block : Block Payload) (isReplay : bool) (s1 : St) :
  (exists evs,
     trace (snd (bind (handleWithState binder
                         (fun state context =>
                            handleActions binder state block
                              (default (emptyContext binder) context) isReplay))
                      (fun _ => ret (false, 0)) s1))
       = trace s1 ++ EvHandleWithState :: evs) /\
  (forall r s',
     bind (handleWithState binder
             (fun state context =>
                handleActions binder state block
                  (default (emptyContext binder) context) isReplay))
          (fun _ => ret (false, 0)) s1 = (Normal r, s') ->
     r = (false, 0)).
Proof.
  split.
  - unfold handleWithState. rewrite bind_assoc_at.
    destruct (call_then_emits (fun _ => True) EvHandleWithState
                (handleWithState_enter binder)
                (fun args =>
                   bind (fun s0 =>
                           let (r, s2) :=
                             handleActions binder (fst args) block
                               (default (emptyContext binder) (snd args)) isReplay s0 in
                           resume (handleWithState_leave binder r) s2)
                        (fun _ => ret (false, 0))) ) with (s := s1)
      as [evs [He _]].
    + intros args. apply emits_bind; [| intros _; apply emits_ret].
      intros s0.
      destruct (handleActions_emits_any (fun _ => True) (fst args) block
                  (default (emptyContext binder) (snd args)) isReplay
                  (fun _ _ _ => I) (fun _ _ _ => I) (fun _ _ _ => I) s0)
        as [evs [He Hall]].
      destruct (handleActions _ _ _ _ _ s0) as [r s2]. simpl in He.
      destruct (emits_resume (fun _ => True)
                  (handleWithState_leave binder r) s2) as [evs' [He' Hall']].
      exists (evs ++ evs'). rewrite He', He, app_assoc.
      split; [reflexivity | apply Forall_app; auto].
    + exists evs. exact He.
  - intros r s'. unfold bind.
    destruct (handleWithState binder _ s1) as [[[] | e] s2]; [| discriminate].
    unfold ret. intros H. inversion H. reflexivity.
Qed.

(** X27.  A block that is not the first one, whose number is one more than
    [lastProcessedBlockNumber] and whose previous hash is
    [lastProcessedBlockHash] (both read after the rollback or cold-start
    step), is applied: the next call is [handleWithState], and if
    [handleBlock] returns it returns [(false, 0)]. *)
Theorem handleBlock_applies_successor block isRollback isReplay (s s1 : St) :
  rollbackOrColdStart binder block isRollback false isReplay s = (Normal tt, s1) ->
  blockNumber (blockInfo block) = lastProcessedBlockNumber (this s1) + 1 ->
  previousBlockHash (blockInfo block) = lastProcessedBlockHash (this s1) ->
  (exists evs,
     trace (final (handleBlock binder block isRollback false isReplay) s)
       = trace s1 ++ EvHandleWithState :: evs) /\
  (forall r s', handleBlock binder block isRollback false isReplay s = (Normal r, s') ->
                r = (false, 0)).
Proof.
  intros Hfirst Hnum Hprev.
  assert (handleBlock binder block isRollback false isReplay s =
          bind (handleWithState binder
                  (fun state context =>
                     handleActions binder state block
                       (default (emptyContext binder) context) isReplay))
               (fun _ => ret (false, 0)) s1) as Heq.
  { unfold handleBlock. unfold bind at 1. rewrite Hfirst.
    unfold checkAndApply. unfold bind at 1, self at 1.
    rewrite Hnum, Hprev, Z.eqb_refl, String.eqb_refl.
    destruct (Z.eqb_spec (lastProcessedBlockNumber (this s1) + 1)
                (lastProcessedBlockNumber (this s1))) as [Hn | Hn]; [lia |].
    reflexivity. }
  unfold final. rewrite Heq. apply applyBlock_starts.
Qed.

(** *** The effects that are run *)


End WithBinder.

(** *** Runs on the sample store *)

Import Sample.

(** The constructor on lists it refuses and on one it accepts: the empty
    list, a repeated name, a version named "hasOwnProperty" (alone, or before
    another version), and two versions named "__proto__", of which the second
    is the one the handler then runs under. *)
Lemma constructor_on_samples :
  constructor (@nil (HandlerVersion unit unit unit Store))
    = Throw (JsError "Must have at least one handler version.") /\
  constructor [v1; v2; v1]
    = Throw (JsError "Handler version name 'v1' already exists. Handler versions must have unique names.") /\
  constructor [shadow] = Throw JsTypeError /\
  constructor [shadow; v1] = Throw JsTypeError /\
  constructor [protoA; protoB]
    = Normal (set_handlerVersionMapProto (Some protoB) (handlerOf [] 0 "" "__proto__")) /\
  (forall h, constructor [protoA; protoB] = Normal h ->
     trace (final (applyUpdaters storeBinder tt (withActions b6 [act "inc"]) false tt)
              (boot h storeAt5))
       = [EvApply "__proto__" 0 "inc"; EvApply "__proto__" 1 "inc"]).
Proof.
  repeat split; try (vm_compute; reflexivity).
  intros h H. vm_compute in H. inversion H; subst. vm_compute. reflexivity.
Qed.

Lemma constructor_registers_each_version_witness :
  let h := Handler.set_handlerVersionMapProto (Some protoB)
             (handlerOf [v2] 0 "" "__proto__") in
  (forall name hv,
     handlerVersionMap h !! name = Some hv <->
     In hv [protoA; v2; protoB] /\ versionName hv = name /\ name <> "__proto__") /\
  getVersion "__proto__" h = Some protoB /\
  (forall name, name <> "__proto__" ->
                getVersion name h = handlerVersionMap h !! name) /\
  lastProcessedBlockNumber h = 0 /\
  lastProcessedBlockHash h = "".
Proof.
  apply (constructor_registers_each_version [protoA; v2; protoB]
           (Handler.set_handlerVersionMapProto (Some protoB)
              (handlerOf [v2] 0 "" "__proto__"))).
  vm_compute. reflexivity.
Defined.

Lemma constructor_start_version_witness :
  let h := handlerOf [v2; v1] 0 "" "v1" in
  (In "v1" (map versionName [v2; v1]) -> handlerVersionName h = "v1") /\
  (~ In "v1" (map versionName [v2; v1]) ->
   exists first, head [v2; v1] = Some first /\
                 handlerVersionName h = versionName first).
Proof.
  apply (constructor_start_version [v2; v1] (handlerOf [v2; v1] 0 "" "v1")).
  vm_compute. reflexivity.
Defined.

Lemma handleBlock_first_block_seek_witness :
  let s := boot (handlerOf [v1; v2] 5 "h5" "v1") storeAt5 in
  handleBlock storeBinder (withActions b7 [act "inc"]) false true false s =
    (Normal (true, lastProcessedBlockNumber (this s) + 1), s).
Proof.
  apply (handleBlock_first_block_seek storeBinder (withActions b7 [act "inc"])
           false false
           (boot (handlerOf [v1; v2] 5 "h5" "v1") storeAt5)
           (boot (handlerOf [v1; v2] 5 "h5" "v1") storeAt5)).
  - reflexivity.
  - simpl. intros [Hn _]. lia.
  - simpl. discriminate.
Defined.

Lemma handleBlock_first_block_applied_witness :
  let s := boot (handlerOf [v1; v2] 0 "" "v1") (mkStore 0 []) in
  let s1 := mkSt (this s) (world s) [EvLoadIndexState] in
  let block := withActions b3 [act "inc"] in
  (exists evs,
     trace (final (handleBlock storeBinder block false true false) s)
       = trace s1 ++ EvHandleWithState :: evs) /\
  (forall r s', handleBlock storeBinder block false true false s = (Normal r, s') ->
                r = (false, 0)).
Proof.
  apply (handleBlock_first_block_applied storeBinder (withActions b3 [act "inc"])
           false false
           (boot (handlerOf [v1; v2] 0 "" "v1") (mkStore 0 []))
           (mkSt (handlerOf [v1; v2] 0 "" "v1") (mkStore 0 []) [EvLoadIndexState])).
  - reflexivity.
  - reflexivity.
  - simpl. intros [Hn _]. lia.
Defined.

Lemma applyUpdaters_no_match_witness :
  let s := boot (handlerOf [v1; v2] 5 "h5" "v1") storeAt5 in
  let block := withActions b6 [act "transfer"; act "vote"] in
  applyUpdaters storeBinder tt block false tt s =
    (Normal (map (fun action => (action, handlerVersionName (this s))) (actions block)),
     s).
Proof.
  apply (applyUpdaters_no_match storeBinder tt
           (withActions b6 [act "transfer"; act "vote"]) false tt
           (boot (handlerOf [v1; v2] 5 "h5" "v1") storeAt5) v1).
  - vm_compute. reflexivity.
  - simpl. repeat constructor; discriminate.
Defined.

Lemma applyUpdaters_pairs_registered_witness :
  let s := boot (handlerOf [v1; v2] 5 "h5" "v1") storeAt5 in
  let block := withActions b6 [act "upgrade"; act "inc"] in
  let s1 := final (applyUpdaters storeBinder tt block false tt) s in
  Forall (fun pair => is_Some (handlerVersionMap (this s1) !! snd pair))
         [(act "upgrade", "v2"); (act "inc", "v2")] /\
  handlerVersionMap (this s1) = handlerVersionMap (this s).
Proof.
  apply (applyUpdaters_pairs_registered storeBinder tt
           (withActions b6 [act "upgrade"; act "inc"]) false tt
           (boot (handlerOf [v1; v2] 5 "h5" "v1") storeAt5)
           (final (applyUpdaters storeBinder tt
                     (withActions b6 [act "upgrade"; act "inc"]) false tt)
              (boot (handlerOf [v1; v2] 5 "h5" "v1") storeAt5))
           [(act "upgrade", "v2"); (act "inc", "v2")]).
  - eexists. vm_compute. reflexivity.
  - vm_compute. reflexivity.
Defined.

Lemma sample_effects_quiet :
  quietEffects (handlerVersionMap (handlerOf [v1; v2] 5 "h5" "v1")).
Proof.
  intros name hv Hhv. unfold handlerOf in Hhv. cbn [handlerVersionMap] in Hhv.
  apply elem_of_list_to_map_2 in Hhv. cbn [map] in Hhv.
  repeat (apply elem_of_cons in Hhv; destruct Hhv as [Hhv | Hhv];
          [inversion Hhv; subst;
           repeat constructor; intros p b c w; eexists; reflexivity |]).
  inversion Hhv.
Defined.

Lemma runEffects_returns_witness :
  let s := boot (handlerOf [v1; v2] 5 "h5" "v1") storeAt5 in
  exists s',
    runEffects [(act "inc", "v1"); (act "upgrade", "v2")] (withActions b6 []) tt s
      = (Normal tt, s') /\
    this s' = this s.
Proof.
  apply (runEffects_returns [(act "inc", "v1"); (act "upgrade", "v2")]
           (withActions b6 []) tt
           (boot (handlerOf [v1; v2] 5 "h5" "v1") storeAt5)).
  - repeat constructor; eexists; vm_compute; reflexivity.
  - exact sample_effects_quiet.
Defined.

Lemma handleBlock_applies_successor_witness :
  let s := boot (handlerOf [v1; v2] 5 "h5" "v1") storeAt5 in
  let block := withActions b6 [act "inc"] in
  (exists evs,
     trace (final (handleBlock storeBinder block false false false) s)
       = trace s ++ EvHandleWithState :: evs) /\
  (forall r s', handleBlock storeBinder block false false false s = (Normal r, s') ->
                r = (false, 0)).
Proof.
  apply (handleBlock_applies_successor storeBinder (withActions b6 [act "inc"])
           false false
           (boot (handlerOf [v1; v2] 5 "h5" "v1") storeAt5)
           (boot (handlerOf [v1; v2] 5 "h5" "v1") storeAt5));
    reflexivity.
Defined.


End HandlerMore.
